(** * ppgen: pinyin password and passphrase generation (core.py)

    A shallow embedding of [load_word_list], [capitalize_pinyin],
    [generate_complex_password] and [generate_passphrase] of
    [src/ppgen/core.py], and the properties of the loader and of the
    generation engine proved about it.

    Conventions of the embedding.
    - A Python [str] is the list of its Unicode code points, so [len] is the
      length of the list and [s[0]] its head.  A string literal of the source
      is written [Str.lit "..."], the code points of the text.
    - [str.upper], [str.strip] and the pattern [\d] follow the character
      tables of the interpreter (CPython 3.11, Unicode 14.0.0), given in
      [Module Unicode].
    - A Python [int] is a [Z].
    - The catalog [word_dict] is a Python dict: an association list in
      insertion order; [keys] is [list(word_dict.keys())].
    - The module-level random source is made explicit: a script of raw draws
      and a cursor.  Every call of [random.choice], [random.random] and every
      position drawn by [random.sample] consumes one draw.
    - A call either returns a value and the advanced random source, or raises
      a Python exception.  The two [while] loops are given fuel, one unit per
      iteration; [OutOfFuel] is the only outcome that is not a Python outcome. *)

From Stdlib Require Import List ZArith NArith Lia Bool Arith String Ascii.
Import ListNotations.
Open Scope string_scope.
Open Scope list_scope.
Open Scope Z_scope.

(** ** Character tables *)

Module Unicode.

Local Open Scope N_scope.

(** The code points that [str.upper] changes, each with the code points of
    its upper-case form. *)
Definition upper_table : list (N * list N) :=
  [
    (97, [65]); (98, [66]); (99, [67]); (100, [68]); (101, [69]);
    (102, [70]); (103, [71]); (104, [72]); (105, [73]); (106, [74]);
    (107, [75]); (108, [76]); (109, [77]); (110, [78]); (111, [79]);
    (112, [80]); (113, [81]); (114, [82]); (115, [83]); (116, [84]);
    (117, [85]); (118, [86]); (119, [87]); (120, [88]); (121, [89]);
    (122, [90]); (181, [924]); (223, [83; 83]); (224, [192]); (225, [193]);
    (226, [194]); (227, [195]); (228, [196]); (229, [197]); (230, [198]);
    (231, [199]); (232, [200]); (233, [201]); (234, [202]); (235, [203]);
    (236, [204]); (237, [205]); (238, [206]); (239, [207]); (240, [208]);
    (241, [209]); (242, [210]); (243, [211]); (244, [212]); (245, [213]);
    (246, [214]); (248, [216]); (249, [217]); (250, [218]); (251, [219]);
    (252, [220]); (253, [221]); (254, [222]); (255, [376]); (257, [256]);
    (259, [258]); (261, [260]); (263, [262]); (265, [264]); (267, [266]);
    (269, [268]); (271, [270]); (273, [272]); (275, [274]); (277, [276]);
    (279, [278]); (281, [280]); (283, [282]); (285, [284]); (287, [286]);
    (289, [288]); (291, [290]); (293, [292]); (295, [294]); (297, [296]);
    (299, [298]); (301, [300]); (303, [302]); (305, [73]); (307, [306]);
    (309, [308]); (311, [310]); (314, [313]); (316, [315]); (318, [317]);
    (320, [319]); (322, [321]); (324, [323]); (326, [325]); (328, [327]);
    (329, [700; 78]); (331, [330]); (333, [332]); (335, [334]); (337, [336]);
    (339, [338]); (341, [340]); (343, [342]); (345, [344]); (347, [346]);
    (349, [348]); (351, [350]); (353, [352]); (355, [354]); (357, [356]);
    (359, [358]); (361, [360]); (363, [362]); (365, [364]); (367, [366]);
    (369, [368]); (371, [370]); (373, [372]); (375, [374]); (378, [377]);
    (380, [379]); (382, [381]); (383, [83]); (384, [579]); (387, [386]);
    (389, [388]); (392, [391]); (396, [395]); (402, [401]); (405, [502]);
    (409, [408]); (410, [573]); (414, [544]); (417, [416]); (419, [418]);
    (421, [420]); (424, [423]); (429, [428]); (432, [431]); (436, [435]);
    (438, [437]); (441, [440]); (445, [444]); (447, [503]); (453, [452]);
    (454, [452]); (456, [455]); (457, [455]); (459, [458]); (460, [458]);
    (462, [461]); (464, [463]); (466, [465]); (468, [467]); (470, [469]);
    (472, [471]); (474, [473]); (476, [475]); (477, [398]); (479, [478]);
    (481, [480]); (483, [482]); (485, [484]); (487, [486]); (489, [488]);
    (491, [490]); (493, [492]); (495, [494]); (496, [74; 780]); (498, [497]);
    (499, [497]); (501, [500]); (505, [504]); (507, [506]); (509, [508]);
    (511, [510]); (513, [512]); (515, [514]); (517, [516]); (519, [518]);
    (521, [520]); (523, [522]); (525, [524]); (527, [526]); (529, [528]);
    (531, [530]); (533, [532]); (535, [534]); (537, [536]); (539, [538]);
    (541, [540]); (543, [542]); (547, [546]); (549, [548]); (551, [550]);
    (553, [552]); (555, [554]); (557, [556]); (559, [558]); (561, [560]);
    (563, [562]); (572, [571]); (575, [11390]); (576, [11391]); (578, [577]);
    (583, [582]); (585, [584]); (587, [586]); (589, [588]); (591, [590]);
    (592, [11375]); (593, [11373]); (594, [11376]); (595, [385]);
    (596, [390]); (598, [393]); (599, [394]); (601, [399]); (603, [400]);
    (604, [42923]); (608, [403]); (609, [42924]); (611, [404]);
    (613, [42893]); (614, [42922]); (616, [407]); (617, [406]);
    (618, [42926]); (619, [11362]); (620, [42925]); (623, [412]);
    (625, [11374]); (626, [413]); (629, [415]); (637, [11364]); (640, [422]);
    (642, [42949]); (643, [425]); (647, [42929]); (648, [430]); (649, [580]);
    (650, [433]); (651, [434]); (652, [581]); (658, [439]); (669, [42930]);
    (670, [42928]); (837, [921]); (881, [880]); (883, [882]); (887, [886]);
    (891, [1021]); (892, [1022]); (893, [1023]); (912, [921; 776; 769]);
    (940, [902]); (941, [904]); (942, [905]); (943, [906]);
    (944, [933; 776; 769]); (945, [913]); (946, [914]); (947, [915]);
    (948, [916]); (949, [917]); (950, [918]); (951, [919]); (952, [920]);
    (953, [921]); (954, [922]); (955, [923]); (956, [924]); (957, [925]);
    (958, [926]); (959, [927]); (960, [928]); (961, [929]); (962, [931]);
    (963, [931]); (964, [932]); (965, [933]); (966, [934]); (967, [935]);
    (968, [936]); (969, [937]); (970, [938]); (971, [939]); (972, [908]);
    (973, [910]); (974, [911]); (976, [914]); (977, [920]); (981, [934]);
    (982, [928]); (983, [975]); (985, [984]); (987, [986]); (989, [988]);
    (991, [990]); (993, [992]); (995, [994]); (997, [996]); (999, [998]);
    (1001, [1000]); (1003, [1002]); (1005, [1004]); (1007, [1006]);
    (1008, [922]); (1009, [929]); (1010, [1017]); (1011, [895]);
    (1013, [917]); (1016, [1015]); (1019, [1018]); (1072, [1040]);
    (1073, [1041]); (1074, [1042]); (1075, [1043]); (1076, [1044]);
    (1077, [1045]); (1078, [1046]); (1079, [1047]); (1080, [1048]);
    (1081, [1049]); (1082, [1050]); (1083, [1051]); (1084, [1052]);
    (1085, [1053]); (1086, [1054]); (1087, [1055]); (1088, [1056]);
    (1089, [1057]); (1090, [1058]); (1091, [1059]); (1092, [1060]);
    (1093, [1061]); (1094, [1062]); (1095, [1063]); (1096, [1064]);
    (1097, [1065]); (1098, [1066]); (1099, [1067]); (1100, [1068]);
    (1101, [1069]); (1102, [1070]); (1103, [1071]); (1104, [1024]);
    (1105, [1025]); (1106, [1026]); (1107, [1027]); (1108, [1028]);
    (1109, [1029]); (1110, [1030]); (1111, [1031]); (1112, [1032]);
    (1113, [1033]); (1114, [1034]); (1115, [1035]); (1116, [1036]);
    (1117, [1037]); (1118, [1038]); (1119, [1039]); (1121, [1120]);
    (1123, [1122]); (1125, [1124]); (1127, [1126]); (1129, [1128]);
    (1131, [1130]); (1133, [1132]); (1135, [1134]); (1137, [1136]);
    (1139, [1138]); (1141, [1140]); (1143, [1142]); (1145, [1144]);
    (1147, [1146]); (1149, [1148]); (1151, [1150]); (1153, [1152]);
    (1163, [1162]); (1165, [1164]); (1167, [1166]); (1169, [1168]);
    (1171, [1170]); (1173, [1172]); (1175, [1174]); (1177, [1176]);
    (1179, [1178]); (1181, [1180]); (1183, [1182]); (1185, [1184]);
    (1187, [1186]); (1189, [1188]); (1191, [1190]); (1193, [1192]);
    (1195, [1194]); (1197, [1196]); (1199, [1198]); (1201, [1200]);
    (1203, [1202]); (1205, [1204]); (1207, [1206]); (1209, [1208]);
    (1211, [1210]); (1213, [1212]); (1215, [1214]); (1218, [1217]);
    (1220, [1219]); (1222, [1221]); (1224, [1223]); (1226, [1225]);
    (1228, [1227]); (1230, [1229]); (1231, [1216]); (1233, [1232]);
    (1235, [1234]); (1237, [1236]); (1239, [1238]); (1241, [1240]);
    (1243, [1242]); (1245, [1244]); (1247, [1246]); (1249, [1248]);
    (1251, [1250]); (1253, [1252]); (1255, [1254]); (1257, [1256]);
    (1259, [1258]); (1261, [1260]); (1263, [1262]); (1265, [1264]);
    (1267, [1266]); (1269, [1268]); (1271, [1270]); (1273, [1272]);
    (1275, [1274]); (1277, [1276]); (1279, [1278]); (1281, [1280]);
    (1283, [1282]); (1285, [1284]); (1287, [1286]); (1289, [1288]);
    (1291, [1290]); (1293, [1292]); (1295, [1294]); (1297, [1296]);
    (1299, [1298]); (1301, [1300]); (1303, [1302]); (1305, [1304]);
    (1307, [1306]); (1309, [1308]); (1311, [1310]); (1313, [1312]);
    (1315, [1314]); (1317, [1316]); (1319, [1318]); (1321, [1320]);
    (1323, [1322]); (1325, [1324]); (1327, [1326]); (1377, [1329]);
    (1378, [1330]); (1379, [1331]); (1380, [1332]); (1381, [1333]);
    (1382, [1334]); (1383, [1335]); (1384, [1336]); (1385, [1337]);
    (1386, [1338]); (1387, [1339]); (1388, [1340]); (1389, [1341]);
    (1390, [1342]); (1391, [1343]); (1392, [1344]); (1393, [1345]);
    (1394, [1346]); (1395, [1347]); (1396, [1348]); (1397, [1349]);
    (1398, [1350]); (1399, [1351]); (1400, [1352]); (1401, [1353]);
    (1402, [1354]); (1403, [1355]); (1404, [1356]); (1405, [1357]);
    (1406, [1358]); (1407, [1359]); (1408, [1360]); (1409, [1361]);
    (1410, [1362]); (1411, [1363]); (1412, [1364]); (1413, [1365]);
    (1414, [1366]); (1415, [1333; 1362]); (4304, [7312]); (4305, [7313]);
    (4306, [7314]); (4307, [7315]); (4308, [7316]); (4309, [7317]);
    (4310, [7318]); (4311, [7319]); (4312, [7320]); (4313, [7321]);
    (4314, [7322]); (4315, [7323]); (4316, [7324]); (4317, [7325]);
    (4318, [7326]); (4319, [7327]); (4320, [7328]); (4321, [7329]);
    (4322, [7330]); (4323, [7331]); (4324, [7332]); (4325, [7333]);
    (4326, [7334]); (4327, [7335]); (4328, [7336]); (4329, [7337]);
    (4330, [7338]); (4331, [7339]); (4332, [7340]); (4333, [7341]);
    (4334, [7342]); (4335, [7343]); (4336, [7344]); (4337, [7345]);
    (4338, [7346]); (4339, [7347]); (4340, [7348]); (4341, [7349]);
    (4342, [7350]); (4343, [7351]); (4344, [7352]); (4345, [7353]);
    (4346, [7354]); (4349, [7357]); (4350, [7358]); (4351, [7359]);
    (5112, [5104]); (5113, [5105]); (5114, [5106]); (5115, [5107]);
    (5116, [5108]); (5117, [5109]); (7296, [1042]); (7297, [1044]);
    (7298, [1054]); (7299, [1057]); (7300, [1058]); (7301, [1058]);
    (7302, [1066]); (7303, [1122]); (7304, [42570]); (7545, [42877]);
    (7549, [11363]); (7566, [42950]); (7681, [7680]); (7683, [7682]);
    (7685, [7684]); (7687, [7686]); (7689, [7688]); (7691, [7690]);
    (7693, [7692]); (7695, [7694]); (7697, [7696]); (7699, [7698]);
    (7701, [7700]); (7703, [7702]); (7705, [7704]); (7707, [7706]);
    (7709, [7708]); (7711, [7710]); (7713, [7712]); (7715, [7714]);
    (7717, [7716]); (7719, [7718]); (7721, [7720]); (7723, [7722]);
    (7725, [7724]); (7727, [7726]); (7729, [7728]); (7731, [7730]);
    (7733, [7732]); (7735, [7734]); (7737, [7736]); (7739, [7738]);
    (7741, [7740]); (7743, [7742]); (7745, [7744]); (7747, [7746]);
    (7749, [7748]); (7751, [7750]); (7753, [7752]); (7755, [7754]);
    (7757, [7756]); (7759, [7758]); (7761, [7760]); (7763, [7762]);
    (7765, [7764]); (7767, [7766]); (7769, [7768]); (7771, [7770]);
    (7773, [7772]); (7775, [7774]); (7777, [7776]); (7779, [7778]);
    (7781, [7780]); (7783, [7782]); (7785, [7784]); (7787, [7786]);
    (7789, [7788]); (7791, [7790]); (7793, [7792]); (7795, [7794]);
    (7797, [7796]); (7799, [7798]); (7801, [7800]); (7803, [7802]);
    (7805, [7804]); (7807, [7806]); (7809, [7808]); (7811, [7810]);
    (7813, [7812]); (7815, [7814]); (7817, [7816]); (7819, [7818]);
    (7821, [7820]); (7823, [7822]); (7825, [7824]); (7827, [7826]);
    (7829, [7828]); (7830, [72; 817]); (7831, [84; 776]); (7832, [87; 778]);
    (7833, [89; 778]); (7834, [65; 702]); (7835, [7776]); (7841, [7840]);
    (7843, [7842]); (7845, [7844]); (7847, [7846]); (7849, [7848]);
    (7851, [7850]); (7853, [7852]); (7855, [7854]); (7857, [7856]);
    (7859, [7858]); (7861, [7860]); (7863, [7862]); (7865, [7864]);
    (7867, [7866]); (7869, [7868]); (7871, [7870]); (7873, [7872]);
    (7875, [7874]); (7877, [7876]); (7879, [7878]); (7881, [7880]);
    (7883, [7882]); (7885, [7884]); (7887, [7886]); (7889, [7888]);
    (7891, [7890]); (7893, [7892]); (7895, [7894]); (7897, [7896]);
    (7899, [7898]); (7901, [7900]); (7903, [7902]); (7905, [7904]);
    (7907, [7906]); (7909, [7908]); (7911, [7910]); (7913, [7912]);
    (7915, [7914]); (7917, [7916]); (7919, [7918]); (7921, [7920]);
    (7923, [7922]); (7925, [7924]); (7927, [7926]); (7929, [7928]);
    (7931, [7930]); (7933, [7932]); (7935, [7934]); (7936, [7944]);
    (7937, [7945]); (7938, [7946]); (7939, [7947]); (7940, [7948]);
    (7941, [7949]); (7942, [7950]); (7943, [7951]); (7952, [7960]);
    (7953, [7961]); (7954, [7962]); (7955, [7963]); (7956, [7964]);
    (7957, [7965]); (7968, [7976]); (7969, [7977]); (7970, [7978]);
    (7971, [7979]); (7972, [7980]); (7973, [7981]); (7974, [7982]);
    (7975, [7983]); (7984, [7992]); (7985, [7993]); (7986, [7994]);
    (7987, [7995]); (7988, [7996]); (7989, [7997]); (7990, [7998]);
    (7991, [7999]); (8000, [8008]); (8001, [8009]); (8002, [8010]);
    (8003, [8011]); (8004, [8012]); (8005, [8013]); (8016, [933; 787]);
    (8017, [8025]); (8018, [933; 787; 768]); (8019, [8027]);
    (8020, [933; 787; 769]); (8021, [8029]); (8022, [933; 787; 834]);
    (8023, [8031]); (8032, [8040]); (8033, [8041]); (8034, [8042]);
    (8035, [8043]); (8036, [8044]); (8037, [8045]); (8038, [8046]);
    (8039, [8047]); (8048, [8122]); (8049, [8123]); (8050, [8136]);
    (8051, [8137]); (8052, [8138]); (8053, [8139]); (8054, [8154]);
    (8055, [8155]); (8056, [8184]); (8057, [8185]); (8058, [8170]);
    (8059, [8171]); (8060, [8186]); (8061, [8187]); (8064, [7944; 921]);
    (8065, [7945; 921]); (8066, [7946; 921]); (8067, [7947; 921]);
    (8068, [7948; 921]); (8069, [7949; 921]); (8070, [7950; 921]);
    (8071, [7951; 921]); (8072, [7944; 921]); (8073, [7945; 921]);
    (8074, [7946; 921]); (8075, [7947; 921]); (8076, [7948; 921]);
    (8077, [7949; 921]); (8078, [7950; 921]); (8079, [7951; 921]);
    (8080, [7976; 921]); (8081, [7977; 921]); (8082, [7978; 921]);
    (8083, [7979; 921]); (8084, [7980; 921]); (8085, [7981; 921]);
    (8086, [7982; 921]); (8087, [7983; 921]); (8088, [7976; 921]);
    (8089, [7977; 921]); (8090, [7978; 921]); (8091, [7979; 921]);
    (8092, [7980; 921]); (8093, [7981; 921]); (8094, [7982; 921]);
    (8095, [7983; 921]); (8096, [8040; 921]); (8097, [8041; 921]);
    (8098, [8042; 921]); (8099, [8043; 921]); (8100, [8044; 921]);
    (8101, [8045; 921]); (8102, [8046; 921]); (8103, [8047; 921]);
    (8104, [8040; 921]); (8105, [8041; 921]); (8106, [8042; 921]);
    (8107, [8043; 921]); (8108, [8044; 921]); (8109, [8045; 921]);
    (8110, [8046; 921]); (8111, [8047; 921]); (8112, [8120]); (8113, [8121]);
    (8114, [8122; 921]); (8115, [913; 921]); (8116, [902; 921]);
    (8118, [913; 834]); (8119, [913; 834; 921]); (8124, [913; 921]);
    (8126, [921]); (8130, [8138; 921]); (8131, [919; 921]);
    (8132, [905; 921]); (8134, [919; 834]); (8135, [919; 834; 921]);
    (8140, [919; 921]); (8144, [8152]); (8145, [8153]);
    (8146, [921; 776; 768]); (8147, [921; 776; 769]); (8150, [921; 834]);
    (8151, [921; 776; 834]); (8160, [8168]); (8161, [8169]);
    (8162, [933; 776; 768]); (8163, [933; 776; 769]); (8164, [929; 787]);
    (8165, [8172]); (8166, [933; 834]); (8167, [933; 776; 834]);
    (8178, [8186; 921]); (8179, [937; 921]); (8180, [911; 921]);
    (8182, [937; 834]); (8183, [937; 834; 921]); (8188, [937; 921]);
    (8526, [8498]); (8560, [8544]); (8561, [8545]); (8562, [8546]);
    (8563, [8547]); (8564, [8548]); (8565, [8549]); (8566, [8550]);
    (8567, [8551]); (8568, [8552]); (8569, [8553]); (8570, [8554]);
    (8571, [8555]); (8572, [8556]); (8573, [8557]); (8574, [8558]);
    (8575, [8559]); (8580, [8579]); (9424, [9398]); (9425, [9399]);
    (9426, [9400]); (9427, [9401]); (9428, [9402]); (9429, [9403]);
    (9430, [9404]); (9431, [9405]); (9432, [9406]); (9433, [9407]);
    (9434, [9408]); (9435, [9409]); (9436, [9410]); (9437, [9411]);
    (9438, [9412]); (9439, [9413]); (9440, [9414]); (9441, [9415]);
    (9442, [9416]); (9443, [9417]); (9444, [9418]); (9445, [9419]);
    (9446, [9420]); (9447, [9421]); (9448, [9422]); (9449, [9423]);
    (11312, [11264]); (11313, [11265]); (11314, [11266]); (11315, [11267]);
    (11316, [11268]); (11317, [11269]); (11318, [11270]); (11319, [11271]);
    (11320, [11272]); (11321, [11273]); (11322, [11274]); (11323, [11275]);
    (11324, [11276]); (11325, [11277]); (11326, [11278]); (11327, [11279]);
    (11328, [11280]); (11329, [11281]); (11330, [11282]); (11331, [11283]);
    (11332, [11284]); (11333, [11285]); (11334, [11286]); (11335, [11287]);
    (11336, [11288]); (11337, [11289]); (11338, [11290]); (11339, [11291]);
    (11340, [11292]); (11341, [11293]); (11342, [11294]); (11343, [11295]);
    (11344, [11296]); (11345, [11297]); (11346, [11298]); (11347, [11299]);
    (11348, [11300]); (11349, [11301]); (11350, [11302]); (11351, [11303]);
    (11352, [11304]); (11353, [11305]); (11354, [11306]); (11355, [11307]);
    (11356, [11308]); (11357, [11309]); (11358, [11310]); (11359, [11311]);
    (11361, [11360]); (11365, [570]); (11366, [574]); (11368, [11367]);
    (11370, [11369]); (11372, [11371]); (11379, [11378]); (11382, [11381]);
    (11393, [11392]); (11395, [11394]); (11397, [11396]); (11399, [11398]);
    (11401, [11400]); (11403, [11402]); (11405, [11404]); (11407, [11406]);
    (11409, [11408]); (11411, [11410]); (11413, [11412]); (11415, [11414]);
    (11417, [11416]); (11419, [11418]); (11421, [11420]); (11423, [11422]);
    (11425, [11424]); (11427, [11426]); (11429, [11428]); (11431, [11430]);
    (11433, [11432]); (11435, [11434]); (11437, [11436]); (11439, [11438]);
    (11441, [11440]); (11443, [11442]); (11445, [11444]); (11447, [11446]);
    (11449, [11448]); (11451, [11450]); (11453, [11452]); (11455, [11454]);
    (11457, [11456]); (11459, [11458]); (11461, [11460]); (11463, [11462]);
    (11465, [11464]); (11467, [11466]); (11469, [11468]); (11471, [11470]);
    (11473, [11472]); (11475, [11474]); (11477, [11476]); (11479, [11478]);
    (11481, [11480]); (11483, [11482]); (11485, [11484]); (11487, [11486]);
    (11489, [11488]); (11491, [11490]); (11500, [11499]); (11502, [11501]);
    (11507, [11506]); (11520, [4256]); (11521, [4257]); (11522, [4258]);
    (11523, [4259]); (11524, [4260]); (11525, [4261]); (11526, [4262]);
    (11527, [4263]); (11528, [4264]); (11529, [4265]); (11530, [4266]);
    (11531, [4267]); (11532, [4268]); (11533, [4269]); (11534, [4270]);
    (11535, [4271]); (11536, [4272]); (11537, [4273]); (11538, [4274]);
    (11539, [4275]); (11540, [4276]); (11541, [4277]); (11542, [4278]);
    (11543, [4279]); (11544, [4280]); (11545, [4281]); (11546, [4282]);
    (11547, [4283]); (11548, [4284]); (11549, [4285]); (11550, [4286]);
    (11551, [4287]); (11552, [4288]); (11553, [4289]); (11554, [4290]);
    (11555, [4291]); (11556, [4292]); (11557, [4293]); (11559, [4295]);
    (11565, [4301]); (42561, [42560]); (42563, [42562]); (42565, [42564]);
    (42567, [42566]); (42569, [42568]); (42571, [42570]); (42573, [42572]);
    (42575, [42574]); (42577, [42576]); (42579, [42578]); (42581, [42580]);
    (42583, [42582]); (42585, [42584]); (42587, [42586]); (42589, [42588]);
    (42591, [42590]); (42593, [42592]); (42595, [42594]); (42597, [42596]);
    (42599, [42598]); (42601, [42600]); (42603, [42602]); (42605, [42604]);
    (42625, [42624]); (42627, [42626]); (42629, [42628]); (42631, [42630]);
    (42633, [42632]); (42635, [42634]); (42637, [42636]); (42639, [42638]);
    (42641, [42640]); (42643, [42642]); (42645, [42644]); (42647, [42646]);
    (42649, [42648]); (42651, [42650]); (42787, [42786]); (42789, [42788]);
    (42791, [42790]); (42793, [42792]); (42795, [42794]); (42797, [42796]);
    (42799, [42798]); (42803, [42802]); (42805, [42804]); (42807, [42806]);
    (42809, [42808]); (42811, [42810]); (42813, [42812]); (42815, [42814]);
    (42817, [42816]); (42819, [42818]); (42821, [42820]); (42823, [42822]);
    (42825, [42824]); (42827, [42826]); (42829, [42828]); (42831, [42830]);
    (42833, [42832]); (42835, [42834]); (42837, [42836]); (42839, [42838]);
    (42841, [42840]); (42843, [42842]); (42845, [42844]); (42847, [42846]);
    (42849, [42848]); (42851, [42850]); (42853, [42852]); (42855, [42854]);
    (42857, [42856]); (42859, [42858]); (42861, [42860]); (42863, [42862]);
    (42874, [42873]); (42876, [42875]); (42879, [42878]); (42881, [42880]);
    (42883, [42882]); (42885, [42884]); (42887, [42886]); (42892, [42891]);
    (42897, [42896]); (42899, [42898]); (42900, [42948]); (42903, [42902]);
    (42905, [42904]); (42907, [42906]); (42909, [42908]); (42911, [42910]);
    (42913, [42912]); (42915, [42914]); (42917, [42916]); (42919, [42918]);
    (42921, [42920]); (42933, [42932]); (42935, [42934]); (42937, [42936]);
    (42939, [42938]); (42941, [42940]); (42943, [42942]); (42945, [42944]);
    (42947, [42946]); (42952, [42951]); (42954, [42953]); (42961, [42960]);
    (42967, [42966]); (42969, [42968]); (42998, [42997]); (43859, [42931]);
    (43888, [5024]); (43889, [5025]); (43890, [5026]); (43891, [5027]);
    (43892, [5028]); (43893, [5029]); (43894, [5030]); (43895, [5031]);
    (43896, [5032]); (43897, [5033]); (43898, [5034]); (43899, [5035]);
    (43900, [5036]); (43901, [5037]); (43902, [5038]); (43903, [5039]);
    (43904, [5040]); (43905, [5041]); (43906, [5042]); (43907, [5043]);
    (43908, [5044]); (43909, [5045]); (43910, [5046]); (43911, [5047]);
    (43912, [5048]); (43913, [5049]); (43914, [5050]); (43915, [5051]);
    (43916, [5052]); (43917, [5053]); (43918, [5054]); (43919, [5055]);
    (43920, [5056]); (43921, [5057]); (43922, [5058]); (43923, [5059]);
    (43924, [5060]); (43925, [5061]); (43926, [5062]); (43927, [5063]);
    (43928, [5064]); (43929, [5065]); (43930, [5066]); (43931, [5067]);
    (43932, [5068]); (43933, [5069]); (43934, [5070]); (43935, [5071]);
    (43936, [5072]); (43937, [5073]); (43938, [5074]); (43939, [5075]);
    (43940, [5076]); (43941, [5077]); (43942, [5078]); (43943, [5079]);
    (43944, [5080]); (43945, [5081]); (43946, [5082]); (43947, [5083]);
    (43948, [5084]); (43949, [5085]); (43950, [5086]); (43951, [5087]);
    (43952, [5088]); (43953, [5089]); (43954, [5090]); (43955, [5091]);
    (43956, [5092]); (43957, [5093]); (43958, [5094]); (43959, [5095]);
    (43960, [5096]); (43961, [5097]); (43962, [5098]); (43963, [5099]);
    (43964, [5100]); (43965, [5101]); (43966, [5102]); (43967, [5103]);
    (64256, [70; 70]); (64257, [70; 73]); (64258, [70; 76]);
    (64259, [70; 70; 73]); (64260, [70; 70; 76]); (64261, [83; 84]);
    (64262, [83; 84]); (64275, [1348; 1350]); (64276, [1348; 1333]);
    (64277, [1348; 1339]); (64278, [1358; 1350]); (64279, [1348; 1341]);
    (65345, [65313]); (65346, [65314]); (65347, [65315]); (65348, [65316]);
    (65349, [65317]); (65350, [65318]); (65351, [65319]); (65352, [65320]);
    (65353, [65321]); (65354, [65322]); (65355, [65323]); (65356, [65324]);
    (65357, [65325]); (65358, [65326]); (65359, [65327]); (65360, [65328]);
    (65361, [65329]); (65362, [65330]); (65363, [65331]); (65364, [65332]);
    (65365, [65333]); (65366, [65334]); (65367, [65335]); (65368, [65336]);
    (65369, [65337]); (65370, [65338]); (66600, [66560]); (66601, [66561]);
    (66602, [66562]); (66603, [66563]); (66604, [66564]); (66605, [66565]);
    (66606, [66566]); (66607, [66567]); (66608, [66568]); (66609, [66569]);
    (66610, [66570]); (66611, [66571]); (66612, [66572]); (66613, [66573]);
    (66614, [66574]); (66615, [66575]); (66616, [66576]); (66617, [66577]);
    (66618, [66578]); (66619, [66579]); (66620, [66580]); (66621, [66581]);
    (66622, [66582]); (66623, [66583]); (66624, [66584]); (66625, [66585]);
    (66626, [66586]); (66627, [66587]); (66628, [66588]); (66629, [66589]);
    (66630, [66590]); (66631, [66591]); (66632, [66592]); (66633, [66593]);
    (66634, [66594]); (66635, [66595]); (66636, [66596]); (66637, [66597]);
    (66638, [66598]); (66639, [66599]); (66776, [66736]); (66777, [66737]);
    (66778, [66738]); (66779, [66739]); (66780, [66740]); (66781, [66741]);
    (66782, [66742]); (66783, [66743]); (66784, [66744]); (66785, [66745]);
    (66786, [66746]); (66787, [66747]); (66788, [66748]); (66789, [66749]);
    (66790, [66750]); (66791, [66751]); (66792, [66752]); (66793, [66753]);
    (66794, [66754]); (66795, [66755]); (66796, [66756]); (66797, [66757]);
    (66798, [66758]); (66799, [66759]); (66800, [66760]); (66801, [66761]);
    (66802, [66762]); (66803, [66763]); (66804, [66764]); (66805, [66765]);
    (66806, [66766]); (66807, [66767]); (66808, [66768]); (66809, [66769]);
    (66810, [66770]); (66811, [66771]); (66967, [66928]); (66968, [66929]);
    (66969, [66930]); (66970, [66931]); (66971, [66932]); (66972, [66933]);
    (66973, [66934]); (66974, [66935]); (66975, [66936]); (66976, [66937]);
    (66977, [66938]); (66979, [66940]); (66980, [66941]); (66981, [66942]);
    (66982, [66943]); (66983, [66944]); (66984, [66945]); (66985, [66946]);
    (66986, [66947]); (66987, [66948]); (66988, [66949]); (66989, [66950]);
    (66990, [66951]); (66991, [66952]); (66992, [66953]); (66993, [66954]);
    (66995, [66956]); (66996, [66957]); (66997, [66958]); (66998, [66959]);
    (66999, [66960]); (67000, [66961]); (67001, [66962]); (67003, [66964]);
    (67004, [66965]); (68800, [68736]); (68801, [68737]); (68802, [68738]);
    (68803, [68739]); (68804, [68740]); (68805, [68741]); (68806, [68742]);
    (68807, [68743]); (68808, [68744]); (68809, [68745]); (68810, [68746]);
    (68811, [68747]); (68812, [68748]); (68813, [68749]); (68814, [68750]);
    (68815, [68751]); (68816, [68752]); (68817, [68753]); (68818, [68754]);
    (68819, [68755]); (68820, [68756]); (68821, [68757]); (68822, [68758]);
    (68823, [68759]); (68824, [68760]); (68825, [68761]); (68826, [68762]);
    (68827, [68763]); (68828, [68764]); (68829, [68765]); (68830, [68766]);
    (68831, [68767]); (68832, [68768]); (68833, [68769]); (68834, [68770]);
    (68835, [68771]); (68836, [68772]); (68837, [68773]); (68838, [68774]);
    (68839, [68775]); (68840, [68776]); (68841, [68777]); (68842, [68778]);
    (68843, [68779]); (68844, [68780]); (68845, [68781]); (68846, [68782]);
    (68847, [68783]); (68848, [68784]); (68849, [68785]); (68850, [68786]);
    (71872, [71840]); (71873, [71841]); (71874, [71842]); (71875, [71843]);
    (71876, [71844]); (71877, [71845]); (71878, [71846]); (71879, [71847]);
    (71880, [71848]); (71881, [71849]); (71882, [71850]); (71883, [71851]);
    (71884, [71852]); (71885, [71853]); (71886, [71854]); (71887, [71855]);
    (71888, [71856]); (71889, [71857]); (71890, [71858]); (71891, [71859]);
    (71892, [71860]); (71893, [71861]); (71894, [71862]); (71895, [71863]);
    (71896, [71864]); (71897, [71865]); (71898, [71866]); (71899, [71867]);
    (71900, [71868]); (71901, [71869]); (71902, [71870]); (71903, [71871]);
    (93792, [93760]); (93793, [93761]); (93794, [93762]); (93795, [93763]);
    (93796, [93764]); (93797, [93765]); (93798, [93766]); (93799, [93767]);
    (93800, [93768]); (93801, [93769]); (93802, [93770]); (93803, [93771]);
    (93804, [93772]); (93805, [93773]); (93806, [93774]); (93807, [93775]);
    (93808, [93776]); (93809, [93777]); (93810, [93778]); (93811, [93779]);
    (93812, [93780]); (93813, [93781]); (93814, [93782]); (93815, [93783]);
    (93816, [93784]); (93817, [93785]); (93818, [93786]); (93819, [93787]);
    (93820, [93788]); (93821, [93789]); (93822, [93790]); (93823, [93791]);
    (125218, [125184]); (125219, [125185]); (125220, [125186]);
    (125221, [125187]); (125222, [125188]); (125223, [125189]);
    (125224, [125190]); (125225, [125191]); (125226, [125192]);
    (125227, [125193]); (125228, [125194]); (125229, [125195]);
    (125230, [125196]); (125231, [125197]); (125232, [125198]);
    (125233, [125199]); (125234, [125200]); (125235, [125201]);
    (125236, [125202]); (125237, [125203]); (125238, [125204]);
    (125239, [125205]); (125240, [125206]); (125241, [125207]);
    (125242, [125208]); (125243, [125209]); (125244, [125210]);
    (125245, [125211]); (125246, [125212]); (125247, [125213]);
    (125248, [125214]); (125249, [125215]); (125250, [125216]);
    (125251, [125217])
  ].

Definition whitespace : list N :=
  [
    9; 10; 11; 12; 13; 28; 29; 30; 31; 32; 133; 160; 5760; 8192; 8193; 8194;
    8195; 8196; 8197; 8198; 8199; 8200; 8201; 8202; 8232; 8233; 8239; 8287;
    12288
  ].

Definition decimal_runs : list (N * N) :=
  [
    (48, 57); (1632, 1641); (1776, 1785); (1984, 1993); (2406, 2415);
    (2534, 2543); (2662, 2671); (2790, 2799); (2918, 2927); (3046, 3055);
    (3174, 3183); (3302, 3311); (3430, 3439); (3558, 3567); (3664, 3673);
    (3792, 3801); (3872, 3881); (4160, 4169); (4240, 4249); (6112, 6121);
    (6160, 6169); (6470, 6479); (6608, 6617); (6784, 6793); (6800, 6809);
    (6992, 7001); (7088, 7097); (7232, 7241); (7248, 7257); (42528, 42537);
    (43216, 43225); (43264, 43273); (43472, 43481); (43504, 43513);
    (43600, 43609); (44016, 44025); (65296, 65305); (66720, 66729);
    (68912, 68921); (69734, 69743); (69872, 69881); (69942, 69951);
    (70096, 70105); (70384, 70393); (70736, 70745); (70864, 70873);
    (71248, 71257); (71360, 71369); (71472, 71481); (71904, 71913);
    (72016, 72025); (72784, 72793); (73040, 73049); (73120, 73129);
    (92768, 92777); (92864, 92873); (93008, 93017); (120782, 120831);
    (123200, 123209); (123632, 123641); (125264, 125273); (130032, 130041)
  ].

End Unicode.

(** ** Strings *)

Definition char := N.
Definition str := list char.

Module Str.

(** The code points of a UTF-8 byte sequence: [need] continuation bytes are
    still expected for the code point accumulated in [acc]. *)
Fixpoint utf8_decode (bytes : list N) (need : nat) (acc : N) : str :=
  match bytes with
  | [] => []
  | b :: rest =>
      match need with
      | O =>
          if (b <? 128)%N then b :: utf8_decode rest 0 0
          else if (b <? 224)%N then utf8_decode rest 1 (b - 192)
          else if (b <? 240)%N then utf8_decode rest 2 (b - 224)
          else utf8_decode rest 3 (b - 240)
      | S O => (acc * 64 + (b - 128))%N :: utf8_decode rest 0 0
      | S need' => utf8_decode rest need' (acc * 64 + (b - 128))
      end
  end.

(** A string literal of the source. *)
Definition lit (s : String.string) : str :=
  utf8_decode (map N_of_ascii (list_ascii_of_string s)) 0 0.

Definition len (s : str) : Z := Z.of_nat (List.length s).

(** [list(s)]: the characters of a string. *)
Definition chars (s : str) : list char := s.

(** The join of a list of one-character strings with the empty separator. *)
Definition of_chars (l : list char) : str := l.

(** A one-character string. *)
Definition of_char (c : char) : str := [c].

Fixpoint eqb (a b : str) : bool :=
  match a, b with
  | [], [] => true
  | x :: a', y :: b' => N.eqb x y && eqb a' b'
  | _, _ => false
  end.

(** [str.upper] on a one-character string. *)
Definition upper_char (c : char) : str :=
  match find (fun cu => N.eqb (fst cu) c) Unicode.upper_table with
  | Some cu => snd cu
  | None => [c]
  end.

(** [s.upper()]. *)
Definition upper (s : str) : str := flat_map upper_char s.

(** [sum(len(p) for p in ps)]. *)
Fixpoint sum_len (ps : list str) : Z :=
  match ps with
  | [] => 0
  | p :: r => len p + sum_len r
  end.

(** [c in s] for a character [c]. *)
Fixpoint mem (c : char) (s : str) : bool :=
  match s with
  | [] => false
  | a :: r => N.eqb a c || mem c r
  end.

(** [sep.join(l)]. *)
Fixpoint join (sep : str) (l : list str) : str :=
  match l with
  | [] => []
  | x :: r =>
      match r with
      | [] => x
      | _ :: _ => x ++ sep ++ join sep r
      end
  end.

End Str.

(** ** The random source

    [random.choice], [random.random] and [random.sample] are functions of
    Python's standard library; they are modelled from their documented
    behaviour, each drawn position taken from the script. *)

Record Rng := mkRng { script : nat -> nat; cursor : nat }.

Inductive exn := IndexError | ValueError | KeyError.

Inductive outcome (A : Type) :=
| Ret (a : A) (g : Rng)
| Raise (e : exn)
| OutOfFuel.
Arguments Ret {A} a g.
Arguments Raise {A} e.
Arguments OutOfFuel {A}.

Definition M (A : Type) : Type := Rng -> outcome A.

Definition ret {A} (a : A) : M A := fun g => Ret a g.

Definition raise {A} (e : exn) : M A := fun _ => Raise e.

Definition bind {A B} (m : M A) (k : A -> M B) : M B :=
  fun g =>
    match m g with
    | Ret a g' => k a g'
    | Raise e => Raise e
    | OutOfFuel => OutOfFuel
    end.

Notation "x <- m ;; k" := (bind m (fun x => k))
  (at level 61, m at next level, right associativity).
Notation "' p <- m ;; k" := (bind m (fun x => let 'p := x in k))
  (at level 61, p pattern, m at next level, right associativity).

(** One raw draw of the script. *)
Definition draw : M nat :=
  fun g => Ret (script g (cursor g)) (mkRng (script g) (S (cursor g))).

(** [random.choice(seq)]: [IndexError] on an empty sequence, otherwise the
    element at a drawn position. *)
Definition choice {A} (seq : list A) : M A :=
  match seq with
  | [] => raise IndexError
  | a :: _ => n <- draw ;; ret (nth (n mod List.length seq)%nat seq a)
  end.

(** [random.random() < 0.5]. *)
Definition random_lt_half : M bool :=
  n <- draw ;; ret (Nat.even n).

(** The list without its element at position [j]. *)
Fixpoint remove_nth {A} (j : nat) (l : list A) : list A :=
  match l, j with
  | [], _ => []
  | _ :: r, O => r
  | a :: r, S j' => a :: remove_nth j' r
  end.

(** [k] draws without replacement from [pool]. *)
Fixpoint sample_pool {A} (pool : list A) (k : nat) : M (list A) :=
  match k with
  | O => ret []
  | S k' =>
      match pool with
      | [] => raise ValueError
      | a :: _ =>
          n <- draw ;;
          let j := (n mod List.length pool)%nat in
          rest <- sample_pool (remove_nth j pool) k' ;;
          ret (nth j pool a :: rest)
      end
  end.

(** [random.sample(population, k)]: [k] elements at pairwise distinct
    positions of [population], in selection order; [ValueError] when [k] is
    negative or larger than the population. *)
Definition sample {A} (population : list A) (k : Z) : M (list A) :=
  if (k <? 0) || (Z.of_nat (List.length population) <? k) then raise ValueError
  else sample_pool population (Z.to_nat k).

(** ** The catalog *)

Record entry := mkEntry { pinyin : str; char_count : Z }.

Definition word_dict := list (str * entry).

Definition keys (d : word_dict) : list str := map fst d.

Fixpoint lookup (d : word_dict) (word : str) : option entry :=
  match d with
  | [] => None
  | (w, e) :: r => if Str.eqb w word then Some e else lookup r word
  end.

(** [word_dict[word]]. *)
Definition getitem (d : word_dict) (word : str) : M entry :=
  match lookup d word with
  | Some e => ret e
  | None => raise KeyError
  end.

(** ** capitalize_pinyin *)

Section CaseTable.

(** The capitalisation of the source is [pinyin[0].upper() + pinyin[1:]];
    [up] stands for [str.upper] on a one-character string, which may return
    more than one character. *)
Variable up : char -> str.

Definition capitalize_with (pinyin : str) : str :=
  match pinyin with
  | [] => pinyin
  | c :: rest => up c ++ rest
  end.

End CaseTable.

Definition capitalize_pinyin (pinyin : str) : str :=
  capitalize_with (fun c => Str.upper (Str.of_char c)) pinyin.

(** The reading of an entry as a generator uses it:
    [pinyin = word_dict[word]["pinyin"]; if capitalize: pinyin = capitalize_pinyin(pinyin)]. *)
Definition reading (capitalize : bool) (e : entry) : str :=
  if capitalize then capitalize_pinyin (pinyin e) else pinyin e.

(** ** generate_complex_password

    Defaults of the source: [min_length=10], [capitalize=False]. *)

Definition special_chars : str := Str.lit "!@#*~".
Definition numbers : str := Str.lit "0123456789".

(** [if random.random() < 0.5: random.choice(special_chars)
     else: random.choice(numbers)]. *)
Definition pick_filler : M char :=
  b <- random_lt_half ;;
  if b then choice (Str.chars special_chars) else choice (Str.chars numbers).

(** The [while] loop of lines 58-66. *)
Fixpoint collect_words (fuel : nat) (d : word_dict) (min_length : Z)
  (capitalize : bool) (pinyins chinese_chars : list str)
  : M (list str * list str) :=
  if Str.sum_len pinyins <? min_length - 3 then
    match fuel with
    | O => fun _ => OutOfFuel
    | S fuel' =>
        word <- choice (keys d) ;;
        e <- getitem d word ;;
        collect_words fuel' d min_length capitalize
          (pinyins ++ [reading capitalize e]) (chinese_chars ++ [word])
    end
  else ret (pinyins, chinese_chars).

(** The [for i, pinyin in enumerate(pinyins)] loop of lines 71-80; [n] is
    [len(pinyins)] and [i] the index of the head of [todo]. *)
Fixpoint interleave (n : nat) (i : nat) (todo : list str)
  (password separators : list char) : M (list char * list char) :=
  match todo with
  | [] => ret (password, separators)
  | p :: rest =>
      let password := password ++ Str.chars p in
      if Z.of_nat i <? Z.of_nat n - 1 then
        sep <- pick_filler ;;
        interleave n (S i) rest (password ++ [sep]) (separators ++ [sep])
      else interleave n (S i) rest password separators
  end.

(** The [for _ in range(2)] loop of lines 84-90. *)
Fixpoint trailing (k : nat) (password final_chars : list char)
  : M (list char * list char) :=
  match k with
  | O => ret (password, final_chars)
  | S k' =>
      char <- pick_filler ;;
      trailing k' (password ++ [char]) (final_chars ++ [char])
  end.

(** [f"{char}({pinyin})"]. *)
Definition token (char pinyin : str) : str :=
  char ++ Str.lit "(" ++ pinyin ++ Str.lit ")".

(** The hint loop of lines 94-97 over [zip(chinese_chars, pinyins)]. *)
Fixpoint complex_hints (i : nat) (pairs : list (str * str))
  (separators : list char) (hints : list str) : list str :=
  match pairs with
  | [] => hints
  | (char, p) :: rest =>
      let hints := hints ++ [token char p] in
      if (i <? List.length separators)%nat
      then complex_hints (S i) rest separators
             (hints ++ [Str.of_char (nth i separators 32%N)])
      else complex_hints (S i) rest separators hints
  end.

Definition generate_complex_password (fuel : nat) (d : word_dict)
  (min_length : Z) (capitalize : bool) : M (str * str) :=
  '(pinyins, chinese_chars) <- collect_words fuel d min_length capitalize [] [] ;;
  '(password, separators) <- interleave (List.length pinyins) 0 pinyins [] [] ;;
  '(password, final_chars) <- trailing 2 password [] ;;
  let hints := complex_hints 0 (combine chinese_chars pinyins) separators [] in
  let hints := hints ++ map Str.of_char final_chars in
  ret (Str.of_chars password, Str.join [] hints).

(** ** generate_passphrase

    Defaults of the source: [min_length=10], [word_count=4],
    [character_count=2], [capitalize=False]; a call that leaves [word_count]
    out is a call with [Some 4], and minimum-length mode is selected by
    passing [None]. *)

(** The hint returned when no word has the requested number of characters. *)
Definition no_words_hint : str := Str.lit "没有找到符合字数要求的词".

(** [[word for word in word_dict.keys()
      if word_dict[word]["char_count"] == character_count]]. *)
Definition valid_words (d : word_dict) (character_count : Z) : list str :=
  filter
    (fun word =>
       match lookup d word with
       | Some e => char_count e =? character_count
       | None => false
       end)
    (keys d).

(** [for word in words: pinyins.append(reading of word)]. *)
Fixpoint append_readings (d : word_dict) (capitalize : bool)
  (words : list str) (pinyins : list str) : M (list str) :=
  match words with
  | [] => ret pinyins
  | word :: rest =>
      e <- getitem d word ;;
      append_readings d capitalize rest (pinyins ++ [reading capitalize e])
  end.

(** The [while] loop of lines 141-157.  [None] is the early
    return of the empty secret from inside the loop. *)
Fixpoint draw_words (fuel : nat) (d : word_dict) (min_length : Z)
  (character_count : Z) (capitalize : bool)
  (pinyins chinese_chars : list str)
  : M (option (list str * list str)) :=
  if (Z.of_nat (List.length pinyins) <? 3) || (Str.sum_len pinyins <? min_length)
  then
    match fuel with
    | O => fun _ => OutOfFuel
    | S fuel' =>
        match valid_words d character_count with
        | [] => ret None
        | valid =>
            words <- sample valid 1 ;;
            pinyins' <- append_readings d capitalize words pinyins ;;
            draw_words fuel' d min_length character_count capitalize
              pinyins' (chinese_chars ++ words)
        end
    end
  else ret (Some (pinyins, chinese_chars)).

(** Lines 159-164: the hints and the two joins. *)
Definition passphrase_result (chinese_chars pinyins : list str)
  : str * str :=
  let hints := map (fun cp => token (fst cp) (snd cp))
                   (combine chinese_chars pinyins) in
  (Str.join (Str.lit "-") pinyins, Str.join (Str.lit "-") hints).

Definition generate_passphrase (fuel : nat) (d : word_dict) (min_length : Z)
  (word_count : option Z) (character_count : Z) (capitalize : bool)
  : M (str * str) :=
  match word_count with
  | Some wc =>
      let actual_count := Z.max 3 wc in
      match valid_words d character_count with
      | [] => ret ([], no_words_hint)
      | valid =>
          words <- sample valid actual_count ;;
          pinyins <- append_readings d capitalize words [] ;;
          ret (passphrase_result words pinyins)
      end
  | None =>
      r <- draw_words fuel d min_length character_count capitalize [] [] ;;
      match r with
      | None => ret ([], no_words_hint)
      | Some (pinyins, chinese_chars) =>
          ret (passphrase_result chinese_chars pinyins)
      end
  end.

(** ** Running the generators on a scripted random source *)

(** A script that replays [l] and then draws 0 for ever. *)
Definition scripted (l : list nat) : Rng := mkRng (fun i => nth i l O) O.

Definition result_of {A} (o : outcome A) : option A :=
  match o with
  | Ret a _ => Some a
  | _ => None
  end.

Definition demo : word_dict :=
  [ (Str.lit "你好", mkEntry (Str.lit "nihao") 2);
    (Str.lit "世界", mkEntry (Str.lit "shijie") 2);
    (Str.lit "北京", mkEntry (Str.lit "beijing") 2);
    (Str.lit "好", mkEntry (Str.lit "hao") 1) ].

(** The catalog of the specification's example. *)
Definition example_catalog : word_dict :=
  [ (Str.lit "你好", mkEntry (Str.lit "nihao") 2);
    (Str.lit "世界", mkEntry (Str.lit "shijie") 2);
    (Str.lit "北京", mkEntry (Str.lit "beijing") 2) ].

(** A catalog with readings outside ASCII: [ü] has an upper-case form of one
    character, [ß] one of two characters. *)
Definition umlauts : word_dict :=
  [ (Str.lit "女", mkEntry (Str.lit "nü") 1);
    (Str.lit "绿", mkEntry (Str.lit "üe") 1);
    (Str.lit "w", mkEntry (Str.lit "ßa") 1) ].

(** A catalog with a reading that contains a closing parenthesis. *)
Definition unbalanced : word_dict :=
  [ (Str.lit "w", mkEntry (Str.lit "a)b") 1) ].

(** A catalog with a word that itself looks like two tokens and a separator. *)
Definition lookalike : word_dict :=
  [ (Str.lit "w", mkEntry (Str.lit "x") 1);
    (Str.lit "y", mkEntry (Str.lit "zz") 1);
    (Str.lit "w(x)1y", mkEntry (Str.lit "zz") 1) ].

(** ** Catalog conditions *)

(** Every reading of the catalog is a non-empty string. *)
Definition readings_nonempty (d : word_dict) : bool :=
  forallb (fun we => negb (Str.eqb (pinyin (snd we)) [])) d.

(** No word contains an opening parenthesis and no reading a closing one. *)
Definition parenthesis_free (d : word_dict) : bool :=
  forallb (fun we => negb (Str.mem 40%N (fst we))
                     && negb (Str.mem 41%N (pinyin (snd we)))) d.

(** Capitalising a reading of the catalog does not change its length: the
    upper-case form of its first character is one character. *)
Definition capitalize_keeps_length (d : word_dict) : bool :=
  forallb (fun we => (List.length (capitalize_pinyin (pinyin (snd we)))
                      =? List.length (pinyin (snd we)))%nat) d.

(** Some entry of the catalog has [character_count] characters. *)
Definition has_count (d : word_dict) (character_count : Z) : bool :=
  existsb (fun we => char_count (snd we) =? character_count) d.

(** The same condition on one (word, reading) pair of a hint. *)
Definition clean_pair (wp : str * str) : Prop :=
  Str.mem 40%N (fst wp) = false /\ Str.mem 41%N (snd wp) = false.

(** [word] is a key of the catalog and [p] is the reading the generators use
    for it. *)
Definition reads (d : word_dict) (capitalize : bool) (word p : str) : Prop :=
  In word (keys d) /\ exists e, lookup d word = Some e /\ p = reading capitalize e.

(** ** Reading a hint back

    The reconstruction the specification describes for the hint of a complex
    password: the reading inside each [word(reading)] token, in order, with
    the separator character found between two tokens, followed by the two
    trailing characters. *)

Inductive mode := InWord | InReading | AfterToken.

Fixpoint replay (m : mode) (hint : str) : str :=
  match hint with
  | [] => []
  | c :: rest =>
      match m with
      | InWord =>
          if N.eqb c 40 then replay InReading rest else replay InWord rest
      | InReading =>
          if N.eqb c 41 then replay AfterToken rest
          else c :: replay InReading rest
      | AfterToken =>
          if (List.length rest =? 1)%nat then hint
          else c :: replay InWord rest
      end
  end.

Definition secret_of_hint (hint : str) : str :=
  if (List.length hint =? 2)%nat then hint else replay InWord hint.

(** ** The shape of a complex password

    Closed forms of what the loops of [generate_complex_password] build:
    readings with one separator after each reading as long as separators
    remain, and the same for the tokens of the hint. *)

Fixpoint weave (pinyins : list str) (separators : list char) : list char :=
  match pinyins with
  | [] => []
  | p :: rest =>
      Str.chars p ++
      match separators with
      | sep :: separators' => sep :: weave rest separators'
      | [] => weave rest []
      end
  end.

Fixpoint hint_weave (pairs : list (str * str)) (separators : list char)
  : str :=
  match pairs with
  | [] => []
  | (char, p) :: rest =>
      token char p ++
      match separators with
      | sep :: separators' => sep :: hint_weave rest separators'
      | [] => hint_weave rest []
      end
  end.

(** The random source after [n] more draws. *)
Definition advance (n : nat) (g : Rng) : Rng :=
  mkRng (script g) (n + cursor g).

(** ** load_word_list

    The file is read as text, so the loop [for line in f] sees the list of its
    lines; [None] stands for a file that does not exist (the message printed
    then is console output and is left out). *)

Module Text.

Definition tab : char := 9%N.
Definition newline : char := 10%N.
Definition apostrophe : char := 39%N.

(** [c.isspace()], the characters that [str.strip()] removes. *)
Definition is_space (c : char) : bool :=
  existsb (N.eqb c) Unicode.whitespace.

(** The class of the pattern [\d]: the decimal digits of Unicode. *)
Definition is_digit (c : char) : bool :=
  existsb (fun r => (fst r <=? c)%N && (c <=? snd r)%N) Unicode.decimal_runs.

Fixpoint lstrip (s : str) : str :=
  match s with
  | [] => []
  | c :: r => if is_space c then lstrip r else s
  end.

Fixpoint rstrip (s : str) : str :=
  match s with
  | [] => []
  | c :: r =>
      match rstrip r with
      | [] => if is_space c then [] else [c]
      | r' => c :: r'
      end
  end.

(** [s.strip()]. *)
Definition strip (s : str) : str := rstrip (lstrip s).

(** [s.split(sep)] for a one-character separator: never an empty list. *)
Fixpoint split (sep : char) (s : str) : list str :=
  match s with
  | [] => [[]]
  | c :: r =>
      if N.eqb c sep then [] :: split sep r
      else match split sep r with
           | [] => [[c]]
           | p :: ps => (c :: p) :: ps
           end
  end.

(** [re.findall] of the pattern [\d]. *)
Fixpoint findall_digits (s : str) : list str :=
  match s with
  | [] => []
  | c :: r =>
      if is_digit c then Str.of_char c :: findall_digits r else findall_digits r
  end.

(** [re.sub] of the pattern [\d] by the empty string. *)
Fixpoint remove_digits (s : str) : str :=
  match s with
  | [] => []
  | c :: r => if is_digit c then remove_digits r else c :: remove_digits r
  end.

(** [s.replace] of the one-character string [c] by the empty string. *)
Fixpoint remove_char (c : char) (s : str) : str :=
  match s with
  | [] => []
  | a :: r => if N.eqb a c then remove_char c r else a :: remove_char c r
  end.

(** Every character of [s] is whitespace. *)
Fixpoint all_space (s : str) : bool :=
  match s with
  | [] => true
  | c :: r => is_space c && all_space r
  end.

End Text.

(** [word_dict[word] = e]: an existing key keeps its place and takes the new
    value, a new key goes to the end. *)
Fixpoint setitem (d : word_dict) (word : str) (e : entry) : word_dict :=
  match d with
  | [] => [(word, e)]
  | (w, e0) :: r =>
      if Str.eqb w word then (w, e) :: r else (w, e0) :: setitem r word e
  end.

(** The body of the loop of lines 14-23 on one line: the pair stored, or
    [None] when the line has fewer than two fields. *)
Definition parse_line (line : str) : option (str * entry) :=
  let parts := Text.split Text.tab (Text.strip line) in
  match parts with
  | word :: pinyin_with_tones :: _ =>
      let char_count := Z.of_nat (List.length (Text.findall_digits pinyin_with_tones)) in
      let pinyin := Text.remove_digits pinyin_with_tones in
      Some (word, mkEntry (Text.remove_char Text.apostrophe pinyin) char_count)
  | _ => None
  end.

(** The loop [for line in f] of lines 13-23; [acc] is the dict being filled. *)
Fixpoint load_lines (lines : list str) (acc : word_dict) : word_dict :=
  match lines with
  | [] => acc
  | line :: rest =>
      match parse_line line with
      | Some (word, e) => load_lines rest (setitem acc word e)
      | None => load_lines rest acc
      end
  end.

Definition load_word_list (file : option (list str)) : option word_dict :=
  match file with
  | Some lines => Some (load_lines lines [])
  | None => None
  end.

(** The entry of the last line of [lines] whose first field is [word]. *)
Fixpoint last_entry (lines : list str) (word : str) : option entry :=
  match lines with
  | [] => None
  | line :: rest =>
      match last_entry rest word with
      | Some e => Some e
      | None =>
          match parse_line line with
          | Some (w, e) => if Str.eqb w word then Some e else None
          | None => None
          end
      end
  end.

(** What [split] returns: at least one field, none containing [sep]. *)
Definition split_ok (sep : char) (parts : list str) : Prop :=
  parts <> [] /\ Forall (fun p => Str.mem sep p = false) parts.

(** ** Filler characters *)

(** [c] is one of the characters of [special_chars] or of [numbers]. *)
Definition is_filler (c : char) : bool :=
  Str.mem c special_chars || Str.mem c numbers.

(** * Properties *)

(** ** The generators on scripted draws *)

Example lit_run :
  Str.lit "你好(ni)ßü" = [20320; 22909; 40; 110; 105; 41; 223; 252]%N.
Proof. vm_compute. reflexivity. Qed.

Example capitalize_pinyin_run :
  capitalize_pinyin (Str.lit "nihao") = Str.lit "Nihao"
  /\ capitalize_pinyin (Str.lit "üe") = Str.lit "Üe"
  /\ capitalize_pinyin (Str.lit "ßa") = Str.lit "SSa"
  /\ capitalize_pinyin (Str.lit "3a") = Str.lit "3a".
Proof. repeat split; vm_compute; reflexivity. Qed.

Example complex_password_run :
  result_of (generate_complex_password 9 demo 12 true
               (scripted [0; 1; 2; 3; 4; 5; 6; 7]%nat))
  = Some (Str.lit "Nihao*Shijie!#", Str.lit "你好(Nihao)*世界(Shijie)!#").
Proof. vm_compute. reflexivity. Qed.

(** Lengths are counted in characters: with [min_length = 6] the reading
    [nü] (two characters) is below the threshold of 3 and a second word is
    drawn. *)
Example complex_password_umlaut_run :
  result_of (generate_complex_password 9 umlauts 6 false
               (scripted [0; 1; 1; 4; 1; 2; 1; 3]%nat))
  = Some (Str.lit "nü4üe23", Str.lit "女(nü)4绿(üe)23").
Proof. vm_compute. reflexivity. Qed.

Example passphrase_fixed_run :
  result_of (generate_passphrase 0 example_catalog 10 (Some 3) 2 false
               (scripted [2; 0; 0]%nat))
  = Some (Str.lit "beijing-nihao-shijie",
          Str.lit "北京(beijing)-你好(nihao)-世界(shijie)").
Proof. vm_compute. reflexivity. Qed.

Example min_length_mode_example :
  result_of (generate_passphrase 20 example_catalog 18 None 2 false
               (scripted [0; 0; 1; 2]%nat))
  = Some (Str.lit "nihao-nihao-shijie-beijing",
          Str.lit "你好(nihao)-你好(nihao)-世界(shijie)-北京(beijing)").
Proof. vm_compute. reflexivity. Qed.

Example passphrase_default_count_too_large :
  generate_passphrase 0 example_catalog 10 (Some 4) 2 false (scripted [])
  = Raise ValueError.
Proof. vm_compute. reflexivity. Qed.

(** ** Strings *)

Lemma len_append (a b : str) : Str.len (a ++ b) = Str.len a + Str.len b.
Proof. unfold Str.len. rewrite length_app. lia. Qed.

Lemma len_nonneg (s : str) : 0 <= Str.len s.
Proof. unfold Str.len. lia. Qed.

Lemma sum_len_app (a b : list str) :
  Str.sum_len (a ++ b) = Str.sum_len a + Str.sum_len b.
Proof. induction a as [|p a IH]; simpl; lia. Qed.

Lemma sum_len_nonneg (l : list str) : 0 <= Str.sum_len l.
Proof. induction l as [|p l IH]; simpl; [lia | pose proof (len_nonneg p); lia]. Qed.

Lemma str_eqb_spec (a b : str) : reflect (a = b) (Str.eqb a b).
Proof.
  revert b. induction a as [|x a IH]; intros [|y b]; cbn [Str.eqb];
    try (constructor; congruence).
  destruct (N.eqb_spec x y) as [->|Hne]; cbn [andb].
  - destruct (IH b) as [->|Hne]; constructor; congruence.
  - constructor. congruence.
Qed.

Lemma str_eqb_refl (a : str) : Str.eqb a a = true.
Proof. now destruct (str_eqb_spec a a). Qed.

Lemma str_eq_dec (a b : str) : {a = b} + {a <> b}.
Proof. apply list_eq_dec, N.eq_dec. Qed.

Lemma mem_app (c : char) (a b : str) :
  Str.mem c (a ++ b) = Str.mem c a || Str.mem c b.
Proof.
  induction a as [|x a IH]; [reflexivity|].
  cbn [app Str.mem]. now rewrite IH, orb_assoc.
Qed.

(** ** The upper-case table *)

Lemma upper_char_cases (c : char) :
  Str.upper_char c = [c] \/ In (c, Str.upper_char c) Unicode.upper_table.
Proof.
  unfold Str.upper_char.
  destruct (find _ Unicode.upper_table) as [[c' u]|] eqn:Hfind; [|now left].
  right. apply find_some in Hfind. destruct Hfind as [Hin Heq].
  cbn [fst] in Heq. apply N.eqb_eq in Heq. subst c'. exact Hin.
Qed.

Lemma upper_table_checked :
  forallb
    (fun cu =>
       match snd cu with
       | [] => false
       | u :: _ => Str.eqb (Str.upper_char u) [u]
       end
       && negb (Str.mem 41%N (snd cu)))
    Unicode.upper_table = true.
Proof. vm_compute. reflexivity. Qed.

(** The upper-case form of a character is never empty, and its first
    character is itself upper case. *)
Lemma upper_char_stable (c : char) :
  exists u us, Str.upper_char c = u :: us /\ Str.upper_char u = [u].
Proof.
  destruct (upper_char_cases c) as [Hsame|Hin].
  - exists c, []. now rewrite Hsame.
  - pose proof upper_table_checked as Hall. rewrite forallb_forall in Hall.
    specialize (Hall _ Hin). cbn [snd] in Hall.
    apply andb_prop in Hall. destruct Hall as [Hstable _].
    destruct (Str.upper_char c) as [|u us]; [discriminate|].
    exists u, us. split; [reflexivity|].
    now destruct (str_eqb_spec (Str.upper_char u) [u]).
Qed.

(** Upper-casing never produces a closing parenthesis. *)
Lemma upper_char_paren (c : char) :
  c <> 41%N -> Str.mem 41%N (Str.upper_char c) = false.
Proof.
  intros Hc. destruct (upper_char_cases c) as [Hsame|Hin].
  - rewrite Hsame. cbn [Str.mem]. rewrite orb_false_r. now apply N.eqb_neq.
  - pose proof upper_table_checked as Hall. rewrite forallb_forall in Hall.
    specialize (Hall _ Hin). cbn [snd] in Hall.
    apply andb_prop in Hall. destruct Hall as [_ Hparen].
    now apply negb_true_iff.
Qed.

(** ** capitalize_pinyin *)

Section CaseTableFacts.

Variable up : char -> str.

(** The first character of an upper-cased character is itself upper case. *)
Hypothesis up_stable :
  forall c, exists u us, up c = u :: us /\ up u = [u].

Lemma capitalize_with_idem (s : str) :
  capitalize_with up (capitalize_with up s) = capitalize_with up s.
Proof.
  destruct s as [|c rest]; [reflexivity|].
  cbn [capitalize_with].
  destruct (up_stable c) as (u & us & Hc & Hu).
  rewrite Hc. cbn [app capitalize_with]. rewrite Hu. reflexivity.
Qed.

End CaseTableFacts.

Lemma upper_one (c : char) : Str.upper (Str.of_char c) = Str.upper_char c.
Proof. unfold Str.upper, Str.of_char. cbn [flat_map]. apply app_nil_r. Qed.

Lemma capitalize_pinyin_cons (c : char) (rest : str) :
  capitalize_pinyin (c :: rest) = Str.upper_char c ++ rest.
Proof. unfold capitalize_pinyin. cbn [capitalize_with]. now rewrite upper_one. Qed.

(** Capitalising never shortens a string. *)
Lemma capitalize_pinyin_length (s : str) :
  (List.length s <= List.length (capitalize_pinyin s))%nat.
Proof.
  destruct s as [|c rest]; [reflexivity|].
  rewrite capitalize_pinyin_cons, length_app.
  destruct (upper_char_stable c) as (u & us & -> & _). cbn [List.length]. lia.
Qed.

(** C9.  Capitalising a reading twice gives the same string as capitalising
    it once, for every string; the empty string is returned unchanged. *)
Theorem capitalize_pinyin_idempotent :
  (forall s, capitalize_pinyin (capitalize_pinyin s) = capitalize_pinyin s)
  /\ capitalize_pinyin [] = [].
Proof.
  split; [|reflexivity].
  intro s. unfold capitalize_pinyin. apply capitalize_with_idem.
  intro c. setoid_rewrite upper_one. apply upper_char_stable.
Qed.

(** ** The random source and the catalog *)

Lemma choice_run {A} (seq : list A) (g : Rng) :
  seq <> [] -> exists a, choice seq g = Ret a (advance 1 g) /\ In a seq.
Proof.
  destruct seq as [|a0 seq']; [congruence|]. intros _.
  unfold choice, bind, draw, ret.
  eexists. split; [reflexivity|].
  apply nth_In. apply Nat.mod_upper_bound. discriminate.
Qed.

Lemma pick_filler_run (g : Rng) :
  exists c, pick_filler g = Ret c (advance 2 g).
Proof.
  unfold pick_filler, random_lt_half, bind, draw, ret.
  destruct (Nat.even _).
  - destruct (choice_run (Str.chars special_chars)
                (mkRng (script g) (S (cursor g)))) as (c & Hc & _).
    { discriminate. }
    exists c. exact Hc.
  - destruct (choice_run (Str.chars numbers)
                (mkRng (script g) (S (cursor g)))) as (c & Hc & _).
    { discriminate. }
    exists c. exact Hc.
Qed.

Lemma lookup_key (d : word_dict) (word : str) :
  In word (keys d) -> exists e, lookup d word = Some e /\ In (word, e) d.
Proof.
  induction d as [|[w e] d IH]; simpl; [tauto|].
  intros Hin. destruct (str_eqb_spec w word) as [->|Hne].
  - exists e. auto.
  - destruct Hin as [Heq|Hin]; [congruence|].
    destruct (IH Hin) as (e' & He' & Hin'). exists e'. auto.
Qed.

Lemma lookup_In (d : word_dict) (word : str) (e : entry) :
  lookup d word = Some e -> In (word, e) d.
Proof.
  induction d as [|[w e0] d IH]; simpl; [discriminate|].
  destruct (str_eqb_spec w word) as [->|Hne].
  - intros [= ->]. auto.
  - auto.
Qed.

(** The reading used is at least as long as the reading of the catalog. *)
Lemma reading_length (capitalize : bool) (e : entry) :
  (List.length (pinyin e) <= List.length (reading capitalize e))%nat.
Proof. destruct capitalize; [apply capitalize_pinyin_length | reflexivity]. Qed.

Lemma readings_nonempty_In (d : word_dict) (w : str) (e : entry) (c : bool) :
  readings_nonempty d = true -> In (w, e) d -> 1 <= Str.len (reading c e).
Proof.
  unfold readings_nonempty. rewrite forallb_forall. intros H Hin.
  specialize (H _ Hin). cbn in H.
  unfold Str.len. pose proof (reading_length c e) as Hlen.
  destruct (pinyin e); [discriminate | cbn [List.length] in Hlen; lia].
Qed.

(** One iteration of the loop body of both generators: a key drawn from a
    non-empty key list is looked up without a [KeyError]. *)
Lemma choice_key_run (d : word_dict) (g : Rng) :
  keys d <> [] ->
  exists w e, choice (keys d) g = Ret w (advance 1 g)
              /\ getitem d w (advance 1 g) = Ret e (advance 1 g)
              /\ In w (keys d) /\ lookup d w = Some e.
Proof.
  intros Hne. destruct (choice_run (keys d) g Hne) as (w & Hw & Hin).
  destruct (lookup_key d w Hin) as (e & He & _).
  exists w, e. unfold getitem. rewrite He. auto.
Qed.

Lemma bind_Ret {A B} (m : M A) (k : A -> M B) (g g' : Rng) (b : B) :
  bind m k g = Ret b g' -> exists a g1, m g = Ret a g1 /\ k a g1 = Ret b g'.
Proof.
  unfold bind. destruct (m g) as [a g1| |]; try discriminate.
  intros H. exists a, g1. auto.
Qed.

Lemma choice_Ret {A} (seq : list A) (g g' : Rng) (a : A) :
  choice seq g = Ret a g' -> In a seq /\ g' = advance 1 g.
Proof.
  intros H. destruct seq as [|a0 seq']; [discriminate|].
  destruct (choice_run (a0 :: seq') g) as (a' & Ha' & Hin); [discriminate|].
  rewrite Ha' in H. injection H as -> <-. auto.
Qed.

Lemma getitem_Ret (d : word_dict) (w : str) (g g' : Rng) (e : entry) :
  getitem d w g = Ret e g' -> lookup d w = Some e /\ g' = g.
Proof.
  unfold getitem. destruct (lookup d w); [|discriminate].
  unfold ret. intros [= -> ->]. auto.
Qed.

(** ** generate_complex_password: the word loop *)

Lemma collect_words_step (fuel : nat) d min_length capitalize pinyins chinese_chars :
  collect_words fuel d min_length capitalize pinyins chinese_chars =
  if Str.sum_len pinyins <? min_length - 3 then
    match fuel with
    | O => fun _ => OutOfFuel
    | S fuel' =>
        word <- choice (keys d) ;;
        e <- getitem d word ;;
        collect_words fuel' d min_length capitalize
          (pinyins ++ [reading capitalize e]) (chinese_chars ++ [word])
    end
  else ret (pinyins, chinese_chars).
Proof. destruct fuel; reflexivity. Qed.

Lemma collect_words_sound (fuel : nat) d min_length capitalize :
  forall pinyins chinese_chars g pinyins' chinese_chars' g',
    collect_words fuel d min_length capitalize pinyins chinese_chars g
    = Ret (pinyins', chinese_chars') g' ->
    Forall2 (reads d capitalize) chinese_chars pinyins ->
    Forall2 (reads d capitalize) chinese_chars' pinyins'
    /\ min_length - 3 <= Str.sum_len pinyins'.
Proof.
  induction fuel as [|fuel IH]; intros ps cs g ps' cs' g' Hrun Hinv;
    rewrite collect_words_step in Hrun;
    destruct (Z.ltb_spec (Str.sum_len ps) (min_length - 3)) as [Hlt|Hge].
  - discriminate.
  - injection Hrun as <- <- <-. auto.
  - apply bind_Ret in Hrun. destruct Hrun as (w & g1 & Hw & Hrun).
    apply bind_Ret in Hrun. destruct Hrun as (e & g2 & He & Hrun).
    apply choice_Ret in Hw. destruct Hw as [Hin _].
    apply getitem_Ret in He. destruct He as [He _].
    apply IH in Hrun; [exact Hrun|].
    apply Forall2_app; [exact Hinv|].
    constructor; [|constructor]. split; [exact Hin|]. exists e. auto.
  - injection Hrun as <- <- <-. auto.
Qed.

Lemma collect_words_total (fuel : nat) d min_length capitalize :
  keys d <> [] -> readings_nonempty d = true ->
  forall pinyins chinese_chars g,
    (Z.to_nat (min_length - 3 - Str.sum_len pinyins) <= fuel)%nat ->
    exists pinyins' chinese_chars' g',
      collect_words fuel d min_length capitalize pinyins chinese_chars g
      = Ret (pinyins', chinese_chars') g'.
Proof.
  intros Hne Hread.
  induction fuel as [|fuel IH]; intros ps cs g Hfuel;
    rewrite collect_words_step;
    destruct (Z.ltb_spec (Str.sum_len ps) (min_length - 3)) as [Hlt|Hge];
    try (now eexists _, _, _); try lia.
  destruct (choice_key_run d g Hne) as (w & e & Hw & He & Hin & Hlk).
  unfold bind at 1. rewrite Hw. unfold bind at 1. rewrite He.
  apply IH. rewrite sum_len_app. cbn [Str.sum_len].
  pose proof (readings_nonempty_In d w e capitalize Hread (lookup_In _ _ _ Hlk)).
  lia.
Qed.

(** ** generate_complex_password: separators, trailing characters, hint *)

Lemma weave_nil_length (pinyins : list str) :
  Z.of_nat (List.length (weave pinyins [])) = Str.sum_len pinyins.
Proof.
  induction pinyins as [|p rest IH]; [reflexivity|].
  cbn [weave Str.sum_len]. unfold Str.chars, Str.len.
  rewrite length_app, Nat2Z.inj_add, IH. reflexivity.
Qed.

Lemma weave_length (pinyins : list str) :
  forall separators,
    (List.length separators <= List.length pinyins)%nat ->
    Z.of_nat (List.length (weave pinyins separators))
    = Str.sum_len pinyins + Z.of_nat (List.length separators).
Proof.
  induction pinyins as [|p rest IH]; intros [|sep seps] Hlen;
    cbn [weave Str.sum_len List.length] in *; try lia.
  - unfold Str.chars, Str.len.
    rewrite length_app, Nat2Z.inj_add, weave_nil_length. lia.
  - unfold Str.chars, Str.len. rewrite length_app. cbn [List.length].
    rewrite Nat2Z.inj_add, Nat2Z.inj_succ, IH by lia. lia.
Qed.

Lemma interleave_run (todo : list str) :
  forall n i password separators g,
    (i + List.length todo = n)%nat ->
    exists new g',
      interleave n i todo password separators g
      = Ret (password ++ weave todo new, separators ++ new) g'
      /\ List.length new = (List.length todo - 1)%nat.
Proof.
  induction todo as [|p rest IH]; intros n i pw seps g Hn.
  - exists [], g. cbn. now rewrite !app_nil_r.
  - cbn [interleave]. cbn [List.length] in Hn.
    destruct (Z.ltb_spec (Z.of_nat i) (Z.of_nat n - 1)) as [Hlt|Hge].
    + destruct (pick_filler_run g) as (sep & Hsep).
      unfold bind. rewrite Hsep.
      destruct (IH n (S i) ((pw ++ Str.chars p) ++ [sep]) (seps ++ [sep])
                  (advance 2 g)) as (new & g' & Hrun & Hlen); [lia|].
      exists (sep :: new), g'. rewrite Hrun. split.
      * cbn [weave]. now rewrite <- !app_assoc.
      * cbn [List.length]. lia.
    + destruct rest as [|q rest]; [|cbn [List.length] in Hn; lia].
      exists [], g. cbn. now rewrite !app_nil_r.
Qed.

Lemma trailing_two_run (password : list char) (g : Rng) :
  exists c1 c2,
    trailing 2 password [] g = Ret (password ++ [c1; c2], [c1; c2]) (advance 4 g).
Proof.
  destruct (pick_filler_run g) as (c1 & H1).
  destruct (pick_filler_run (advance 2 g)) as (c2 & H2).
  exists c1, c2. cbn [trailing]. unfold bind. rewrite H1, H2.
  unfold ret. now rewrite <- app_assoc.
Qed.

Lemma join_empty_concat (l : list str) : Str.join [] l = List.concat l.
Proof.
  induction l as [|x l IH]; [reflexivity|].
  cbn [Str.join List.concat]. destruct l as [|y l].
  - cbn [List.concat]. now rewrite app_nil_r.
  - cbn [app]. now rewrite IH.
Qed.

Lemma join_empty_app (a b : list str) :
  Str.join [] (a ++ b) = Str.join [] a ++ Str.join [] b.
Proof. rewrite !join_empty_concat. apply concat_app. Qed.

Lemma join_empty_chars (l : list char) :
  Str.join [] (map Str.of_char l) = Str.of_chars l.
Proof.
  rewrite join_empty_concat. unfold Str.of_chars, Str.of_char.
  induction l as [|c l IH]; [reflexivity|]. cbn [map List.concat app]. now rewrite IH.
Qed.

Lemma skipn_nth {A} (l : list A) (i : nat) (a : A) :
  (i < List.length l)%nat -> skipn i l = nth i l a :: skipn (S i) l.
Proof.
  revert i. induction l as [|x l IH]; intros [|i] Hlt; cbn in *; try lia.
  - reflexivity.
  - apply IH. lia.
Qed.

Lemma complex_hints_join (pairs : list (str * str)) (separators : list char) :
  forall i hints,
    Str.join [] (complex_hints i pairs separators hints)
    = Str.join [] hints ++ hint_weave pairs (skipn i separators).
Proof.
  induction pairs as [|[char p] rest IH]; intros i hints.
  - cbn. now rewrite app_nil_r.
  - cbn [complex_hints hint_weave].
    destruct (Nat.ltb_spec i (List.length separators)) as [Hlt|Hge].
    + rewrite IH, !join_empty_app.
      rewrite (skipn_nth separators i 32%N Hlt).
      cbn [Str.join Str.of_char].
      rewrite <- !app_assoc. reflexivity.
    + rewrite IH, join_empty_app.
      rewrite (skipn_all2 separators) by lia.
      rewrite (skipn_all2 separators) by lia.
      cbn [Str.join]. rewrite <- !app_assoc. reflexivity.
Qed.

(** What [generate_complex_password] returns once its word loop has returned
    [pinyins] and [chinese_chars]. *)
Lemma generate_complex_password_shape fuel d min_length capitalize g
      pinyins chinese_chars g1 :
  collect_words fuel d min_length capitalize [] [] g
  = Ret (pinyins, chinese_chars) g1 ->
  exists separators c1 c2 g',
    generate_complex_password fuel d min_length capitalize g
    = Ret (Str.of_chars (weave pinyins separators ++ [c1; c2]),
           hint_weave (combine chinese_chars pinyins) separators
           ++ Str.of_chars [c1; c2]) g'
    /\ List.length separators = (List.length pinyins - 1)%nat.
Proof.
  intros Hwords.
  destruct (interleave_run pinyins (List.length pinyins) 0 [] [] g1 eq_refl)
    as (seps & g2 & Hsep & Hlen).
  destruct (trailing_two_run (weave pinyins seps) g2) as (c1 & c2 & Htr).
  exists seps, c1, c2, (advance 4 g2). split; [|exact Hlen].
  unfold generate_complex_password. unfold bind at 1. rewrite Hwords.
  unfold bind at 1. rewrite Hsep. cbn [app].
  unfold bind at 1. rewrite Htr. unfold ret.
  rewrite join_empty_app, complex_hints_join, join_empty_chars.
  reflexivity.
Qed.

(** C1.  On a non-empty catalog whose readings are all non-empty,
    [generate_complex_password] returns (given fuel for [min_length - 3]
    iterations of its word loop, whatever the random source draws) a secret
    whose length is the summed length of the selected readings, which is at
    least [min_length - 3], plus one separator per internal word boundary
    (none when no word is selected), plus 2 trailing characters; hence
    [len(secret) >= (min_length - 3) + (number of words - 1) + 2].
    Lengths are Python's [len], counted in characters.
    This holds for every [min_length], in particular for [min_length >= 1]. *)
Theorem complex_password_length d min_length capitalize fuel g :
  keys d <> [] ->
  readings_nonempty d = true ->
  (Z.to_nat (min_length - 3) <= fuel)%nat ->
  exists pinyins chinese_chars g1 secret hint g',
    collect_words fuel d min_length capitalize [] [] g
    = Ret (pinyins, chinese_chars) g1
    /\ Forall2 (reads d capitalize) chinese_chars pinyins
    /\ generate_complex_password fuel d min_length capitalize g
       = Ret (secret, hint) g'
    /\ min_length - 3 <= Str.sum_len pinyins
    /\ Str.len secret
       = Str.sum_len pinyins + Z.of_nat (List.length pinyins - 1) + 2
    /\ (min_length - 3) + (Z.of_nat (List.length pinyins) - 1) + 2
       <= Str.len secret.
Proof.
  intros Hne Hread Hfuel.
  destruct (collect_words_total fuel d min_length capitalize Hne Hread [] [] g)
    as (ps & cs & g1 & Hwords); [cbn; lia|].
  destruct (collect_words_sound _ _ _ _ _ _ _ _ _ _ Hwords (Forall2_nil _))
    as [Hsel Hsum].
  destruct (generate_complex_password_shape _ _ _ _ _ _ _ _ Hwords)
    as (seps & c1 & c2 & g' & Hrun & Hlen).
  exists ps, cs, g1. eexists _, _, g'.
  split; [exact Hwords|]. split; [exact Hsel|]. split; [exact Hrun|].
  split; [exact Hsum|].
  assert (Hsecret : Str.len (Str.of_chars (weave ps seps ++ [c1; c2]))
                    = Str.sum_len ps + Z.of_nat (List.length ps - 1) + 2).
  { unfold Str.len, Str.of_chars. rewrite length_app, Nat2Z.inj_add.
    rewrite weave_length by lia. rewrite Hlen. cbn [List.length]. lia. }
  split; [exact Hsecret|]. rewrite Hsecret. lia.
Qed.

(** ** Reading the hint of a complex password back *)

Lemma replay_word (w rest : str) :
  Str.mem 40%N w = false ->
  replay InWord (w ++ 40%N :: rest) = replay InReading rest.
Proof.
  induction w as [|c w IH]; cbn [app replay Str.mem].
  - intros _. reflexivity.
  - intros H. apply orb_false_elim in H. destruct H as [Hc Hw].
    rewrite Hc. exact (IH Hw).
Qed.

Lemma replay_reading (p rest : str) :
  Str.mem 41%N p = false ->
  replay InReading (p ++ 41%N :: rest) = p ++ replay AfterToken rest.
Proof.
  induction p as [|c p IH]; cbn [app replay Str.mem].
  - intros _. reflexivity.
  - intros H. apply orb_false_elim in H. destruct H as [Hc Hp].
    rewrite Hc, (IH Hp). reflexivity.
Qed.

Lemma token_append (w p rest : str) :
  token w p ++ rest = w ++ 40%N :: (p ++ 41%N :: rest).
Proof.
  unfold token. change (Str.lit "(") with [40%N]. change (Str.lit ")") with [41%N].
  rewrite <- !app_assoc. reflexivity.
Qed.

Lemma replay_token (w p rest : str) :
  Str.mem 40%N w = false -> Str.mem 41%N p = false ->
  replay InWord (token w p ++ rest) = p ++ replay AfterToken rest.
Proof.
  intros Hw Hp. rewrite token_append, (replay_word _ _ Hw).
  apply (replay_reading _ _ Hp).
Qed.

Lemma token_length (w p : str) : (2 <= List.length (token w p))%nat.
Proof.
  rewrite <- (app_nil_r (token w p)), token_append, !length_app.
  cbn [List.length]. rewrite length_app. cbn [List.length]. lia.
Qed.

Lemma replay_hint (pairs : list (str * str)) :
  forall separators c1 c2,
    Forall clean_pair pairs ->
    pairs <> [] ->
    List.length separators = (List.length pairs - 1)%nat ->
    replay InWord (hint_weave pairs separators ++ Str.of_chars [c1; c2])
    = Str.of_chars (weave (map snd pairs) separators ++ [c1; c2]).
Proof.
  unfold Str.of_chars.
  induction pairs as [|[w p] rest IH]; intros seps c1 c2 Hclean Hne Hlen;
    [congruence|].
  inversion Hclean as [|? ? [Hw Hp] Hrest]; subst. cbn [fst snd] in *.
  cbn [hint_weave map weave snd]. rewrite <- app_assoc.
  rewrite (replay_token _ _ _ Hw Hp).
  unfold Str.chars at 1. rewrite <- app_assoc. f_equal.
  destruct rest as [|q rest].
  - destruct seps; [|discriminate]. reflexivity.
  - destruct seps as [|sep seps]; [discriminate|].
    cbn [app replay]. rewrite length_app. cbn [List.length].
    replace (_ + 2 =? 1)%nat with false by (symmetry; apply Nat.eqb_neq; lia).
    rewrite (IH seps c1 c2 Hrest); [reflexivity | discriminate |].
    cbn [List.length] in *. lia.
Qed.

Lemma reads_clean d capitalize (w p : str) :
  parenthesis_free d = true -> reads d capitalize w p -> clean_pair (w, p).
Proof.
  unfold parenthesis_free. rewrite forallb_forall.
  intros Hfree [Hin (e & He & ->)]. split; cbn [fst snd].
  - apply in_map_iff in Hin. destruct Hin as ([w' e'] & <- & Hin).
    specialize (Hfree _ Hin). apply andb_prop in Hfree.
    now apply negb_true_iff.
  - specialize (Hfree _ (lookup_In _ _ _ He)). apply andb_prop in Hfree.
    destruct Hfree as [_ Hp]. apply negb_true_iff in Hp. cbn [snd] in Hp.
    destruct capitalize; cbn [reading]; [|exact Hp].
    destruct (pinyin e) as [|c rest]; [reflexivity|].
    rewrite capitalize_pinyin_cons, mem_app.
    cbn [Str.mem] in Hp. apply orb_false_elim in Hp. destruct Hp as [Hc Hrest].
    rewrite Hrest, orb_false_r. apply upper_char_paren.
    now apply N.eqb_neq.
Qed.

Lemma combine_clean d capitalize (words pinyins : list str) :
  parenthesis_free d = true ->
  Forall2 (reads d capitalize) words pinyins ->
  Forall clean_pair (combine words pinyins)
  /\ map snd (combine words pinyins) = pinyins.
Proof.
  intros Hfree Hsel. induction Hsel as [|w p ws ps Hwp _ [IH1 IH2]].
  - split; [constructor | reflexivity].
  - cbn [combine map snd]. rewrite IH2. split; [|reflexivity].
    constructor; [|exact IH1]. exact (reads_clean _ _ _ _ Hfree Hwp).
Qed.

Lemma secret_of_hint_shape (pairs : list (str * str)) separators c1 c2 :
  Forall clean_pair pairs ->
  List.length separators = (List.length pairs - 1)%nat ->
  secret_of_hint (hint_weave pairs separators ++ Str.of_chars [c1; c2])
  = Str.of_chars (weave (map snd pairs) separators ++ [c1; c2]).
Proof.
  intros Hclean Hlen. unfold secret_of_hint.
  destruct pairs as [|[w p] rest]; [reflexivity|].
  rewrite length_app.
  replace (_ + _ =? 2)%nat with false.
  - apply replay_hint; [exact Hclean | discriminate | exact Hlen].
  - symmetry. apply Nat.eqb_neq. cbn [hint_weave Str.of_chars List.length].
    rewrite length_app. pose proof (token_length w p). lia.
Qed.

Lemma result_of_Some {A} (o : outcome A) (a : A) :
  result_of o = Some a -> exists g', o = Ret a g'.
Proof. destruct o as [a' g'| |]; try discriminate. intros [= ->]. now exists g'. Qed.

Lemma generate_complex_password_words fuel d min_length capitalize g secret hint g' :
  generate_complex_password fuel d min_length capitalize g = Ret (secret, hint) g' ->
  exists pinyins chinese_chars g1,
    collect_words fuel d min_length capitalize [] [] g
    = Ret (pinyins, chinese_chars) g1.
Proof.
  unfold generate_complex_password. intros H. apply bind_Ret in H.
  destruct H as ([ps cs] & g1 & Hwords & _). now exists ps, cs, g1.
Qed.

(** C2 (as amended).  When no word of the catalog contains an opening
    parenthesis and no reading a closing one, the hint of every complex
    password determines its secret: the readings inside the [word(reading)]
    tokens of the hint, in order, with the separator characters found between
    the tokens and the two trailing characters of the hint, are exactly the
    returned secret. *)
Theorem hint_determines_secret d min_length capitalize fuel g secret hint g' :
  parenthesis_free d = true ->
  generate_complex_password fuel d min_length capitalize g = Ret (secret, hint) g' ->
  secret_of_hint hint = secret.
Proof.
  intros Hfree Hrun.
  destruct (generate_complex_password_words _ _ _ _ _ _ _ _ Hrun)
    as (ps & cs & g1 & Hwords).
  destruct (collect_words_sound _ _ _ _ _ _ _ _ _ _ Hwords (Forall2_nil _))
    as [Hsel _].
  destruct (generate_complex_password_shape _ _ _ _ _ _ _ _ Hwords)
    as (seps & c1 & c2 & g2 & Hshape & Hlen).
  rewrite Hshape in Hrun. injection Hrun as <- <- _.
  destruct (combine_clean _ _ _ _ Hfree Hsel) as [Hclean Hsnd].
  rewrite secret_of_hint_shape.
  - now rewrite Hsnd.
  - exact Hclean.
  - rewrite length_combine, <- (Forall2_length Hsel), Nat.min_id.
    rewrite (Forall2_length Hsel). exact Hlen.
Qed.

Lemma hint_determines_secret_witness :
  secret_of_hint (Str.lit "你好(Nihao)*世界(Shijie)!#") = Str.lit "Nihao*Shijie!#".
Proof.
  eapply (hint_determines_secret demo 12 true 9
            (scripted [0; 1; 2; 3; 4; 5; 6; 7]%nat)).
  - vm_compute. reflexivity.
  - vm_compute. reflexivity.
Defined.

Lemma lookalike_runs :
  result_of (generate_complex_password 2 lookalike 5 false
               (scripted [0; 1; 1; 1; 1; 2; 1; 3]%nat))
  = Some (Str.lit "x1zz23", Str.lit "w(x)1y(zz)23")
  /\ result_of (generate_complex_password 2 lookalike 5 false
                  (scripted [2; 1; 2; 1; 3]%nat))
     = Some (Str.lit "zz23", Str.lit "w(x)1y(zz)23").
Proof. split; vm_compute; reflexivity. Qed.

Lemma unbalanced_run :
  result_of (generate_complex_password 1 unbalanced 4 false
               (scripted [0; 1; 2; 1; 3]%nat))
  = Some (Str.lit "a)b23", Str.lit "w(a)b)23")
  /\ secret_of_hint (Str.lit "w(a)b)23") = Str.lit "ab".
Proof. split; vm_compute; reflexivity. Qed.

(** C2, as stated, fails.  On the catalog [lookalike] two runs with the same
    [min_length] return the same hint with different secrets, so nothing
    computed from the hint can be the secret of every generated password; and
    on the catalog [unbalanced], whose reading contains a closing parenthesis,
    reading the tokens of the hint back does not give the secret. *)
Lemma hint_not_lossless :
  (~ exists decode : str -> str,
       forall d min_length capitalize fuel g secret hint g',
         generate_complex_password fuel d min_length capitalize g
         = Ret (secret, hint) g' ->
         decode hint = secret)
  /\ (~ forall d min_length capitalize fuel g secret hint g',
          generate_complex_password fuel d min_length capitalize g
          = Ret (secret, hint) g' ->
          secret_of_hint hint = secret).
Proof.
  assert (Hany : ~ exists decode : str -> str,
             forall d min_length capitalize fuel g secret hint g',
               generate_complex_password fuel d min_length capitalize g
               = Ret (secret, hint) g' ->
               decode hint = secret).
  { intros [decode Hdec]. destruct lookalike_runs as [HA HB].
    apply result_of_Some in HA. destruct HA as [gA HA].
    apply result_of_Some in HB. destruct HB as [gB HB].
    apply Hdec in HA. apply Hdec in HB. rewrite HA in HB.
    vm_compute in HB. discriminate. }
  split; [exact Hany|].
  intros Hdec. destruct unbalanced_run as [Hrun Hback].
  apply result_of_Some in Hrun. destruct Hrun as [g' Hrun].
  apply Hdec in Hrun. rewrite Hback in Hrun. vm_compute in Hrun. discriminate.
Qed.

Lemma complex_password_length_witness :
  exists pinyins chinese_chars g1 secret hint g',
    collect_words 9 demo 12 true [] [] (scripted [0; 1; 2; 3; 4; 5; 6; 7]%nat)
    = Ret (pinyins, chinese_chars) g1
    /\ Forall2 (reads demo true) chinese_chars pinyins
    /\ generate_complex_password 9 demo 12 true
         (scripted [0; 1; 2; 3; 4; 5; 6; 7]%nat)
       = Ret (secret, hint) g'
    /\ 12 - 3 <= Str.sum_len pinyins
    /\ Str.len secret
       = Str.sum_len pinyins + Z.of_nat (List.length pinyins - 1) + 2
    /\ (12 - 3) + (Z.of_nat (List.length pinyins) - 1) + 2 <= Str.len secret.
Proof.
  apply (complex_password_length demo 12 true 9
           (scripted [0; 1; 2; 3; 4; 5; 6; 7]%nat)).
  - discriminate.
  - vm_compute. reflexivity.
  - simpl. lia.
Defined.

(** ** generate_complex_password on an empty catalog *)

(** C3 (as amended).  On the empty catalog and with [min_length > 3] the call
    fails: the first [random.choice] over the empty key list raises
    [IndexError]; the call neither loops nor returns a result. *)
Theorem empty_catalog_raises min_length capitalize fuel g :
  3 < min_length ->
  generate_complex_password (S fuel) [] min_length capitalize g
  = Raise IndexError.
Proof.
  intros Hlen. unfold generate_complex_password, bind.
  rewrite collect_words_step. cbn [Str.sum_len].
  destruct (Z.ltb_spec 0 (min_length - 3)); [reflexivity | lia].
Qed.

Lemma empty_catalog_raises_witness :
  generate_complex_password 1 [] 10 false (scripted []) = Raise IndexError.
Proof. apply (empty_catalog_raises 10 false 0 (scripted [])). lia. Defined.

(** C3, as stated, fails: with [min_length = 3] the word loop is not entered
    and the empty catalog yields a result made of the two trailing
    characters. *)
Lemma empty_catalog_returns :
  result_of (generate_complex_password 1 [] 3 false (scripted [0; 0; 1; 7]%nat))
  = Some (Str.lit "!7", Str.lit "!7").
Proof. vm_compute. reflexivity. Qed.

(** ** Termination of generate_complex_password *)

Lemma collect_words_fuel (fuel : nat) d min_length capitalize :
  readings_nonempty d = true ->
  forall pinyins chinese_chars g,
    (Z.to_nat (min_length - 3 - Str.sum_len pinyins) <= fuel)%nat ->
    collect_words fuel d min_length capitalize pinyins chinese_chars g
    <> OutOfFuel.
Proof.
  intros Hread. destruct (keys d) as [|k ks] eqn:Hkeys.
  - intros ps cs g Hfuel. rewrite collect_words_step.
    destruct (Z.ltb_spec (Str.sum_len ps) (min_length - 3)); [|discriminate].
    destruct fuel; [lia|]. unfold bind. rewrite Hkeys. discriminate.
  - intros ps cs g Hfuel.
    destruct (collect_words_total fuel d min_length capitalize) with
      (pinyins := ps) (chinese_chars := cs) (g := g) as (? & ? & ? & ->);
      try assumption; [rewrite Hkeys|]; discriminate.
Qed.

Lemma generate_complex_password_fuel fuel d min_length capitalize g :
  readings_nonempty d = true ->
  (Z.to_nat (min_length - 3) <= fuel)%nat ->
  (exists r g', generate_complex_password fuel d min_length capitalize g = Ret r g')
  \/ (exists e, generate_complex_password fuel d min_length capitalize g = Raise e).
Proof.
  intros Hread Hfuel.
  pose proof (collect_words_fuel fuel d min_length capitalize Hread [] [] g) as Hnf.
  destruct (collect_words fuel d min_length capitalize [] [] g)
    as [[ps cs] g1|e|] eqn:Hwords.
  - left. destruct (generate_complex_password_shape _ _ _ _ _ _ _ _ Hwords)
      as (seps & c1 & c2 & g' & Hrun & _).
    eexists _, g'. exact Hrun.
  - right. exists e. unfold generate_complex_password, bind.
    now rewrite Hwords.
  - exfalso. apply Hnf; [cbn; lia | reflexivity].
Qed.

(** ** random.sample *)

Lemma remove_nth_length {A} (l : list A) :
  forall j, (j < List.length l)%nat ->
            List.length (remove_nth j l) = (List.length l - 1)%nat.
Proof.
  induction l as [|a l IH]; intros [|j] Hj; cbn [remove_nth List.length] in *;
    try lia.
  rewrite IH by lia. lia.
Qed.

Lemma remove_nth_incl {A} (l : list A) :
  forall j, incl (remove_nth j l) l.
Proof.
  induction l as [|a l IH]; intros [|j]; cbn [remove_nth].
  - apply incl_refl.
  - apply incl_refl.
  - apply incl_tl, incl_refl.
  - apply incl_cons; [left; reflexivity | apply incl_tl, IH].
Qed.

Lemma remove_nth_NoDup {A} (l : list A) (a0 : A) :
  forall j, (j < List.length l)%nat -> NoDup l ->
            NoDup (remove_nth j l) /\ ~ In (nth j l a0) (remove_nth j l).
Proof.
  induction l as [|a l IH]; intros [|j] Hj Hnd; cbn [List.length] in Hj;
    try lia; inversion Hnd as [|? ? Hnotin Hnd']; subst;
    cbn [remove_nth nth].
  - auto.
  - destruct (IH j ltac:(lia) Hnd') as [IH1 IH2]. split.
    + constructor; [|exact IH1].
      intros Hin. apply Hnotin. exact (remove_nth_incl l j a Hin).
    + intros [Heq|Hin]; [|exact (IH2 Hin)].
      apply Hnotin. rewrite Heq. apply nth_In. lia.
Qed.

Lemma sample_pool_run {A} (k : nat) :
  forall (pool : list A) g,
    (k <= List.length pool)%nat ->
    exists l,
      sample_pool pool k g = Ret l (advance k g)
      /\ List.length l = k
      /\ incl l pool
      /\ (NoDup pool -> NoDup l).
Proof.
  induction k as [|k IH]; intros pool g Hk.
  - exists []. repeat split; auto using incl_nil_l, NoDup_nil.
    unfold advance. now destruct g.
  - destruct pool as [|a pool']; [cbn in Hk; lia|].
    remember (a :: pool') as pool eqn:Hpool.
    set (j := (script g (cursor g) mod List.length pool)%nat).
    assert (Hj : (j < List.length pool)%nat)
      by (apply Nat.mod_upper_bound; subst pool; discriminate).
    destruct (IH (remove_nth j pool) (advance 1 g)) as (l & Hl & Hlen & Hincl & Hnd).
    { rewrite remove_nth_length by exact Hj. lia. }
    exists (nth j pool a :: l).
    split; [|split; [|split]].
    + assert (Hstep : sample_pool pool (S k) g
                      = bind (sample_pool (remove_nth j pool) k)
                          (fun rest => ret (nth j pool a :: rest)) (advance 1 g))
        by (subst pool; reflexivity).
      rewrite Hstep. unfold bind. rewrite Hl. unfold ret, advance.
      cbn [script cursor]. do 2 f_equal. lia.
    + cbn [List.length]. lia.
    + apply incl_cons; [apply nth_In; exact Hj|].
      intros x Hx. exact (remove_nth_incl pool j x (Hincl x Hx)).
    + intros Hnp.
      destruct (remove_nth_NoDup pool a j Hj Hnp) as [Hnd' Hnotin].
      constructor; [|exact (Hnd Hnd')].
      intros Hin. exact (Hnotin (Hincl _ Hin)).
Qed.

Lemma sample_run {A} (population : list A) (k : Z) (g : Rng) :
  0 <= k <= Z.of_nat (List.length population) ->
  exists l,
    sample population k g = Ret l (advance (Z.to_nat k) g)
    /\ Z.of_nat (List.length l) = k
    /\ incl l population
    /\ (NoDup population -> NoDup l).
Proof.
  intros Hk. unfold sample.
  destruct (Z.ltb_spec k 0); [lia|].
  destruct (Z.ltb_spec (Z.of_nat (List.length population)) k); [lia|].
  cbn [orb].
  destruct (sample_pool_run (Z.to_nat k) population g) as (l & Hl & Hlen & Hrest);
    [lia|].
  exists l. split; [exact Hl|]. split; [lia | exact Hrest].
Qed.

Lemma sample_too_many {A} (population : list A) (k : Z) (g : Rng) :
  Z.of_nat (List.length population) < k ->
  sample population k g = Raise ValueError.
Proof.
  intros Hk. unfold sample.
  destruct (Z.ltb_spec (Z.of_nat (List.length population)) k); [|lia].
  now rewrite orb_true_r.
Qed.

(** ** generate_passphrase: shared steps *)

Lemma valid_words_keys d character_count (w : str) :
  In w (valid_words d character_count) -> In w (keys d).
Proof. unfold valid_words. rewrite filter_In. tauto. Qed.

Lemma valid_words_NoDup d character_count :
  NoDup (keys d) -> NoDup (valid_words d character_count).
Proof. apply NoDup_filter. Qed.

Lemma append_readings_run d capitalize (words : list str) :
  forall pinyins g,
    Forall (fun w => In w (keys d)) words ->
    exists new,
      append_readings d capitalize words pinyins g = Ret (pinyins ++ new) g
      /\ Forall2 (reads d capitalize) words new.
Proof.
  induction words as [|w words IH]; intros ps g Hin.
  - exists []. cbn. now rewrite app_nil_r.
  - inversion Hin as [|? ? Hw Hrest]; subst.
    destruct (lookup_key d w Hw) as (e & He & _).
    destruct (IH (ps ++ [reading capitalize e]) g Hrest) as (new & Hrun & Hsel).
    exists (reading capitalize e :: new). split.
    + cbn [append_readings]. unfold bind, getitem. rewrite He. unfold ret.
      rewrite Hrun, <- app_assoc. reflexivity.
    + constructor; [|exact Hsel]. split; [exact Hw|]. now exists e.
Qed.

(** ** The eligible words *)

Lemma filter_none {A} (f : A -> bool) (l : list A) :
  (forall x, In x l -> f x = false) -> filter f l = [].
Proof.
  induction l as [|a l IH]; intros H; [reflexivity|].
  cbn [filter]. rewrite (H a (or_introl eq_refl)).
  apply IH. intros x Hx. apply H. now right.
Qed.

Lemma has_count_false d character_count :
  has_count d character_count = false -> valid_words d character_count = [].
Proof.
  intros Hnone. unfold valid_words. apply filter_none. intros w Hw.
  destruct (lookup_key d w Hw) as (e & He & Hin). rewrite He.
  unfold has_count in Hnone.
  destruct (char_count e =? character_count) eqn:Heq; [|reflexivity].
  assert (Hex : existsb (fun we => char_count (snd we) =? character_count) d = true)
    by (apply existsb_exists; exists (w, e); auto).
  congruence.
Qed.

Lemma has_count_true d character_count :
  NoDup (keys d) -> has_count d character_count = true ->
  valid_words d character_count <> [].
Proof.
  intros Hnd Hsome. unfold has_count in Hsome.
  apply existsb_exists in Hsome. destruct Hsome as ([w e] & Hin & Hcount).
  cbn [snd] in Hcount.
  assert (Hlk : lookup d w = Some e).
  { clear Hcount. induction d as [|[w0 e0] d IH]; [contradiction|].
    cbn [keys map fst] in Hnd. inversion Hnd as [|? ? Hnotin Hnd']; subst.
    cbn [lookup]. destruct Hin as [[= -> ->]|Hin].
    - now rewrite str_eqb_refl.
    - destruct (str_eqb_spec w0 w) as [->|_]; [|exact (IH Hnd' Hin)].
      exfalso. apply Hnotin. apply in_map_iff. now exists (w, e). }
  assert (Hw : In w (valid_words d character_count)).
  { unfold valid_words. apply filter_In. split.
    - apply in_map_iff. now exists (w, e).
    - now rewrite Hlk. }
  intros Hnil. now rewrite Hnil in Hw.
Qed.

(** ** The hyphen join *)

Lemma join_dash_cons (x y : str) (l : list str) :
  Str.join (Str.lit "-") (x :: y :: l)
  = x ++ 45%N :: Str.join (Str.lit "-") (y :: l).
Proof. reflexivity. Qed.

Lemma join_dash_length (ps : list str) :
  Str.len (Str.join (Str.lit "-") ps)
  = Str.sum_len ps + Z.of_nat (List.length ps - 1).
Proof.
  induction ps as [|p ps IH]; [reflexivity|].
  destruct ps as [|q ps].
  - cbn [Str.join Str.sum_len List.length]. cbn. lia.
  - rewrite join_dash_cons, len_append.
    change (45%N :: Str.join (Str.lit "-") (q :: ps))
      with ([45%N] ++ Str.join (Str.lit "-") (q :: ps)).
    rewrite len_append, IH. cbn [Str.sum_len List.length].
    change (Str.len [45%N]) with 1. lia.
Qed.

(** ** generate_passphrase: minimum-length mode *)

Lemma draw_words_step (fuel : nat) d min_length character_count capitalize
      pinyins chinese_chars :
  draw_words fuel d min_length character_count capitalize pinyins chinese_chars =
  if (Z.of_nat (List.length pinyins) <? 3) || (Str.sum_len pinyins <? min_length)
  then
    match fuel with
    | O => fun _ => OutOfFuel
    | S fuel' =>
        match valid_words d character_count with
        | [] => ret None
        | valid =>
            words <- sample valid 1 ;;
            pinyins' <- append_readings d capitalize words pinyins ;;
            draw_words fuel' d min_length character_count capitalize
              pinyins' (chinese_chars ++ words)
        end
    end
  else ret (Some (pinyins, chinese_chars)).
Proof. destruct fuel; reflexivity. Qed.

(** One draw of the loop body: one eligible word and its reading. *)
Lemma draw_one_run d character_count capitalize pinyins g :
  valid_words d character_count <> [] ->
  exists w p,
    sample (valid_words d character_count) 1 g = Ret [w] (advance 1 g)
    /\ append_readings d capitalize [w] pinyins (advance 1 g)
       = Ret (pinyins ++ [p]) (advance 1 g)
    /\ In w (valid_words d character_count)
    /\ reads d capitalize w p.
Proof.
  intros Hne.
  destruct (sample_run (valid_words d character_count) 1 g)
    as (l & Hl & Hlen & Hincl & _).
  { destruct (valid_words d character_count); [congruence|].
    cbn [List.length]. lia. }
  destruct l as [|w [|w' l]]; cbn [List.length] in Hlen; try lia.
  assert (Hw : In w (valid_words d character_count))
    by (apply Hincl; left; reflexivity).
  destruct (append_readings_run d capitalize [w] pinyins (advance 1 g))
    as (new & Hrun & Hsel).
  { constructor; [|constructor]. exact (valid_words_keys _ _ _ Hw). }
  inversion Hsel as [|? p ? ? Hwp Hnil]; subst. inversion Hnil; subst.
  exists w, p. auto.
Qed.

Lemma reads_nonempty d capitalize (w p : str) :
  readings_nonempty d = true -> reads d capitalize w p -> 1 <= Str.len p.
Proof.
  intros Hread [_ (e & He & ->)].
  exact (readings_nonempty_In d w e capitalize Hread (lookup_In _ _ _ He)).
Qed.

Lemma draw_words_total (fuel : nat) d min_length character_count capitalize :
  valid_words d character_count <> [] ->
  readings_nonempty d = true ->
  forall pinyins chinese_chars g,
    (3 - List.length pinyins + Z.to_nat (min_length - Str.sum_len pinyins)
     <= fuel)%nat ->
    Forall2 (reads d capitalize) chinese_chars pinyins ->
    Forall (fun w => In w (valid_words d character_count)) chinese_chars ->
    exists pinyins' chinese_chars' g',
      draw_words fuel d min_length character_count capitalize
        pinyins chinese_chars g
      = Ret (Some (pinyins', chinese_chars')) g'
      /\ (3 <= List.length pinyins')%nat
      /\ min_length <= Str.sum_len pinyins'
      /\ Forall2 (reads d capitalize) chinese_chars' pinyins'
      /\ Forall (fun w => In w (valid_words d character_count)) chinese_chars'.
Proof.
  intros Hne Hread.
  induction fuel as [|fuel IH]; intros ps cs g Hfuel Hsel Hvalid;
    rewrite draw_words_step;
    destruct (Z.ltb_spec (Z.of_nat (List.length ps)) 3) as [Hl|Hl];
    destruct (Z.ltb_spec (Str.sum_len ps) min_length) as [Hs|Hs];
    cbn [orb]; try lia;
    try (exists ps, cs, g; repeat split; solve [auto | lia]).
  all: destruct (draw_one_run d character_count capitalize ps g Hne)
         as (w & p & Hw & Hp & Hin & Hwp);
       pose proof (reads_nonempty _ _ _ _ Hread Hwp) as Hlen;
       destruct (valid_words d character_count) as [|v vs] eqn:Hvw;
         [congruence|];
       unfold bind at 1; rewrite Hw; unfold bind at 1; rewrite Hp;
       apply IH;
       [ rewrite sum_len_app, length_app; cbn [Str.sum_len List.length]; lia
       | apply Forall2_app; [exact Hsel | constructor; [exact Hwp | constructor]]
       | apply Forall_app; split; [exact Hvalid | constructor; [exact Hin | constructor]] ].
Qed.

Lemma min_length_mode_run fuel d min_length character_count capitalize g :
  valid_words d character_count <> [] ->
  readings_nonempty d = true ->
  (3 + Z.to_nat min_length <= fuel)%nat ->
  exists pinyins chinese_chars g',
    generate_passphrase fuel d min_length None character_count capitalize g
    = Ret (passphrase_result chinese_chars pinyins) g'.
Proof.
  intros Hne Hread Hfuel.
  destruct (draw_words_total fuel d min_length character_count capitalize
              Hne Hread [] [] g) as (ps & cs & g' & Hrun & _);
    [cbn; lia | constructor | constructor |].
  exists ps, cs, g'. unfold generate_passphrase, bind. now rewrite Hrun.
Qed.

(** C4.  In minimum-length mode ([word_count] is [None]), on a catalog whose
    readings are non-empty and which has at least one word with the requested
    number of characters, [generate_passphrase] returns (given fuel for
    [3 + min_length] iterations, whatever the random source draws) a secret
    that is the hyphen join of the readings of at least 3 eligible words,
    whose summed lengths are at least [min_length]; the hint is the hyphen
    join of their [word(reading)] tokens.  Lengths are Python's [len]. *)
Theorem passphrase_min_length d min_length character_count capitalize fuel g :
  NoDup (keys d) ->
  has_count d character_count = true ->
  readings_nonempty d = true ->
  (3 + Z.to_nat min_length <= fuel)%nat ->
  exists pinyins chinese_chars secret hint g',
    generate_passphrase fuel d min_length None character_count capitalize g
    = Ret (secret, hint) g'
    /\ secret = Str.join (Str.lit "-") pinyins
    /\ hint = Str.join (Str.lit "-")
                (map (fun cp => token (fst cp) (snd cp))
                     (combine chinese_chars pinyins))
    /\ (3 <= List.length pinyins)%nat
    /\ List.length chinese_chars = List.length pinyins
    /\ min_length <= Str.sum_len pinyins
    /\ Str.len secret
       = Str.sum_len pinyins + Z.of_nat (List.length pinyins) - 1
    /\ Forall2 (reads d capitalize) chinese_chars pinyins
    /\ Forall (fun w => In w (valid_words d character_count)) chinese_chars.
Proof.
  intros Hkeys Hsome Hread Hfuel.
  pose proof (has_count_true d character_count Hkeys Hsome) as Hne.
  destruct (draw_words_total fuel d min_length character_count capitalize
              Hne Hread [] [] g) as (ps & cs & g' & Hrun & Hlen & Hsum & Hsel & Hin);
    [cbn; lia | constructor | constructor |].
  exists ps, cs. eexists _, _, g'.
  split; [unfold generate_passphrase, bind; rewrite Hrun; reflexivity|].
  split; [reflexivity|]. split; [reflexivity|].
  split; [exact Hlen|]. split; [exact (Forall2_length Hsel)|].
  split; [exact Hsum|]. split; [rewrite join_dash_length; lia|].
  split; [exact Hsel | exact Hin].
Qed.

Lemma passphrase_min_length_witness :
  exists pinyins chinese_chars secret hint g',
    generate_passphrase 15 demo 12 None 2 false (scripted [0; 1; 2]%nat)
    = Ret (secret, hint) g'
    /\ secret = Str.join (Str.lit "-") pinyins
    /\ hint = Str.join (Str.lit "-")
                (map (fun cp => token (fst cp) (snd cp))
                     (combine chinese_chars pinyins))
    /\ (3 <= List.length pinyins)%nat
    /\ List.length chinese_chars = List.length pinyins
    /\ 12 <= Str.sum_len pinyins
    /\ Str.len secret
       = Str.sum_len pinyins + Z.of_nat (List.length pinyins) - 1
    /\ Forall2 (reads demo false) chinese_chars pinyins
    /\ Forall (fun w => In w (valid_words demo 2)) chinese_chars.
Proof.
  apply (passphrase_min_length demo 12 2 false 15 (scripted [0; 1; 2]%nat)).
  - vm_compute. repeat constructor; simpl; intuition discriminate.
  - vm_compute. reflexivity.
  - vm_compute. reflexivity.
  - simpl. lia.
Defined.

(** ** generate_passphrase: fixed-count mode *)

(** C5.  In fixed-count mode, when the eligible words number at least
    [max(3, word_count)], [generate_passphrase] returns a secret that is the
    hyphen join of the readings of exactly [max(3, word_count)] eligible
    words, pairwise distinct, and a hint that is the hyphen join of their
    [word(reading)] tokens; for [word_count = 2] that is 3 words. *)
Theorem passphrase_fixed_count d min_length wc character_count capitalize fuel g :
  NoDup (keys d) ->
  Z.max 3 wc <= Z.of_nat (List.length (valid_words d character_count)) ->
  exists words pinyins secret hint g',
    generate_passphrase fuel d min_length (Some wc) character_count capitalize g
    = Ret (secret, hint) g'
    /\ secret = Str.join (Str.lit "-") pinyins
    /\ hint = Str.join (Str.lit "-")
                (map (fun cp => token (fst cp) (snd cp)) (combine words pinyins))
    /\ Z.of_nat (List.length words) = Z.max 3 wc
    /\ (wc = 2 -> List.length words = 3%nat)
    /\ NoDup words
    /\ Forall (fun w => In w (valid_words d character_count)) words
    /\ Forall2 (reads d capitalize) words pinyins.
Proof.
  intros Hkeys Hcount.
  destruct (sample_run (valid_words d character_count) (Z.max 3 wc) g)
    as (words & Hsample & Hlen & Hincl & Hnd); [lia|].
  assert (Hvalid : Forall (fun w => In w (valid_words d character_count)) words)
    by (apply Forall_forall; exact Hincl).
  destruct (append_readings_run d capitalize words []
              (advance (Z.to_nat (Z.max 3 wc)) g)) as (ps & Hread & Hsel).
  { apply Forall_forall. intros w Hw.
    exact (valid_words_keys _ _ _ (Hincl w Hw)). }
  exists words, ps. eexists _, _, (advance (Z.to_nat (Z.max 3 wc)) g).
  split; [|split; [reflexivity|split; [reflexivity|repeat split]]].
  - unfold generate_passphrase.
    destruct (valid_words d character_count) as [|v vs] eqn:Hvw;
      [cbn [List.length] in Hcount; lia|].
    unfold bind at 1. rewrite Hsample. unfold bind. rewrite Hread.
    reflexivity.
  - exact Hlen.
  - intros ->. change (Z.max 3 2) with 3 in Hlen. lia.
  - exact (Hnd (valid_words_NoDup _ _ Hkeys)).
  - exact Hvalid.
  - exact Hsel.
Qed.

Lemma passphrase_fixed_count_witness :
  exists words pinyins secret hint g',
    generate_passphrase 0 demo 10 (Some 2) 2 true (scripted [0; 1; 0]%nat)
    = Ret (secret, hint) g'
    /\ secret = Str.join (Str.lit "-") pinyins
    /\ hint = Str.join (Str.lit "-")
                (map (fun cp => token (fst cp) (snd cp)) (combine words pinyins))
    /\ Z.of_nat (List.length words) = Z.max 3 2
    /\ (2 = 2 -> List.length words = 3%nat)
    /\ NoDup words
    /\ Forall (fun w => In w (valid_words demo 2)) words
    /\ Forall2 (reads demo true) words pinyins.
Proof.
  apply (passphrase_fixed_count demo 10 2 2 true 0 (scripted [0; 1; 0]%nat)).
  - vm_compute. repeat constructor; simpl; intuition discriminate.
  - vm_compute. discriminate.
Defined.

(** C6.  In fixed-count mode, when there are eligible words but fewer than
    [max(3, word_count)], [generate_passphrase] fails: [random.sample] raises
    [ValueError] (sample larger than population); no result is returned. *)
Theorem passphrase_insufficient_words d min_length wc character_count capitalize
        fuel g :
  valid_words d character_count <> [] ->
  Z.of_nat (List.length (valid_words d character_count)) < Z.max 3 wc ->
  generate_passphrase fuel d min_length (Some wc) character_count capitalize g
  = Raise ValueError.
Proof.
  intros Hne Hfew. unfold generate_passphrase.
  destruct (valid_words d character_count) as [|v vs] eqn:Hvw; [congruence|].
  unfold bind. now rewrite (sample_too_many _ _ g Hfew).
Qed.

Lemma passphrase_insufficient_words_witness :
  generate_passphrase 0 demo 10 (Some 4) 2 false (scripted [])
  = Raise ValueError.
Proof.
  apply (passphrase_insufficient_words demo 10 4 2 false 0 (scripted [])).
  - vm_compute. discriminate.
  - vm_compute. reflexivity.
Defined.

(** ** generate_passphrase: no eligible word *)

(** C7.  When no word of the catalog has the requested number of characters,
    both modes of [generate_passphrase] return (they do not raise) the empty
    secret together with a non-empty explanatory hint, and draw nothing. *)
Theorem passphrase_no_eligible_words d min_length wc character_count capitalize
        fuel g :
  has_count d character_count = false ->
  generate_passphrase fuel d min_length (Some wc) character_count capitalize g
  = Ret ([], no_words_hint) g
  /\ generate_passphrase (S fuel) d min_length None character_count capitalize g
     = Ret ([], no_words_hint) g
  /\ no_words_hint <> [].
Proof.
  intros Hnone. apply has_count_false in Hnone.
  split; [|split].
  - unfold generate_passphrase. now rewrite Hnone.
  - unfold generate_passphrase, bind. rewrite draw_words_step.
    cbn [List.length Z.of_nat Z.ltb Z.compare orb]. now rewrite Hnone.
  - vm_compute. discriminate.
Qed.

Lemma passphrase_no_eligible_words_witness :
  generate_passphrase 0 demo 10 (Some 4) 3 false (scripted [])
  = Ret ([], no_words_hint) (scripted [])
  /\ generate_passphrase 1 demo 10 None 3 false (scripted [])
     = Ret ([], no_words_hint) (scripted [])
  /\ no_words_hint <> [].
Proof.
  apply (passphrase_no_eligible_words demo 10 4 3 false 0 (scripted [])).
  reflexivity.
Defined.

(** ** Termination of both generators *)

Lemma generate_passphrase_fuel fuel d min_length word_count character_count
      capitalize g :
  readings_nonempty d = true ->
  (3 + Z.to_nat min_length <= fuel)%nat ->
  (exists r g',
      generate_passphrase fuel d min_length word_count character_count
        capitalize g = Ret r g')
  \/ (exists e,
         generate_passphrase fuel d min_length word_count character_count
           capitalize g = Raise e).
Proof.
  intros Hread Hfuel.
  destruct (valid_words d character_count) as [|v vs] eqn:Hvw.
  - left. destruct word_count as [wc|]; unfold generate_passphrase.
    + rewrite Hvw. now eexists _, _.
    + destruct fuel as [|fuel]; [lia|].
      unfold bind. rewrite draw_words_step, Hvw.
      cbn [List.length Z.of_nat Z.ltb Z.compare orb]. now eexists _, _.
  - assert (Hne : valid_words d character_count <> []) by (rewrite Hvw; discriminate).
    destruct word_count as [wc|].
    + unfold generate_passphrase. rewrite Hvw.
      destruct (Z.lt_ge_cases (Z.of_nat (List.length (v :: vs))) (Z.max 3 wc))
        as [Hfew|Henough].
      * right. exists ValueError. unfold bind.
        now rewrite (sample_too_many _ _ g Hfew).
      * left. destruct (sample_run (v :: vs) (Z.max 3 wc) g)
          as (words & Hsample & _ & Hincl & _); [lia|].
        destruct (append_readings_run d capitalize words []
                    (advance (Z.to_nat (Z.max 3 wc)) g)) as (ps & Hps & _).
        { apply Forall_forall. intros w Hw. apply (valid_words_keys d character_count).
          rewrite Hvw. exact (Hincl w Hw). }
        unfold bind at 1. rewrite Hsample. unfold bind. rewrite Hps.
        now eexists _, _.
    + left.
      destruct (min_length_mode_run fuel d min_length character_count
                  capitalize g Hne Hread Hfuel) as (ps & cs & g' & Hrun).
      eexists _, _. exact Hrun.
Qed.

(** C8.  On a catalog whose readings are all non-empty, every call of
    [generate_complex_password] and of [generate_passphrase] ends, whatever
    the random source draws: fuel for [3 + min_length] loop iterations is
    enough for the call to return a result or to raise. *)
Theorem generators_terminate d min_length word_count character_count capitalize
        fuel g :
  readings_nonempty d = true ->
  (3 + Z.to_nat min_length <= fuel)%nat ->
  ((exists r g',
       generate_complex_password fuel d min_length capitalize g = Ret r g')
   \/ (exists e,
          generate_complex_password fuel d min_length capitalize g = Raise e))
  /\
  ((exists r g',
       generate_passphrase fuel d min_length word_count character_count
         capitalize g = Ret r g')
   \/ (exists e,
          generate_passphrase fuel d min_length word_count character_count
            capitalize g = Raise e)).
Proof.
  intros Hread Hfuel. split.
  - apply generate_complex_password_fuel; [exact Hread | lia].
  - apply generate_passphrase_fuel; assumption.
Qed.

Lemma generators_terminate_witness :
  ((exists r g',
       generate_complex_password 15 demo 12 true (scripted [5; 3]%nat) = Ret r g')
   \/ (exists e,
          generate_complex_password 15 demo 12 true (scripted [5; 3]%nat)
          = Raise e))
  /\
  ((exists r g',
       generate_passphrase 15 demo 12 None 2 true (scripted [5; 3]%nat) = Ret r g')
   \/ (exists e,
          generate_passphrase 15 demo 12 None 2 true (scripted [5; 3]%nat)
          = Raise e)).
Proof.
  apply (generators_terminate demo 12 None 2 true 15 (scripted [5; 3]%nat)).
  - vm_compute. reflexivity.
  - simpl. lia.
Defined.

(** ** Fixed-count mode and min_length *)

(** C10.  In fixed-count mode [min_length] (like the loop fuel) has no effect:
    two calls that differ only in [min_length] return the same outcome on the
    same random source; the secret can be shorter than [min_length]. *)
Theorem fixed_count_ignores_min_length :
  (forall d min_length1 min_length2 wc character_count capitalize fuel1 fuel2 g,
      generate_passphrase fuel1 d min_length1 (Some wc) character_count
        capitalize g
      = generate_passphrase fuel2 d min_length2 (Some wc) character_count
          capitalize g)
  /\ (exists secret hint g',
         generate_passphrase 0 demo 100 (Some 3) 2 false (scripted [])
         = Ret (secret, hint) g'
         /\ Str.len secret < 100).
Proof.
  split; [reflexivity|].
  eexists _, _, _. split; [vm_compute; reflexivity | vm_compute; reflexivity].
Qed.


(** * Further properties of the generators and of the loader *)

Example load_word_list_run :
  load_word_list
    (Some [ Str.lit "ab" ++ [Text.tab] ++ Str.lit "ni3'hao3" ++ [Text.newline];
            Str.lit "no tab here";
            Str.lit "cd" ++ [Text.tab] ++ Str.lit "shi4jie4" ++ [Text.tab]
              ++ Str.lit "x";
            Str.lit "ab" ++ [Text.tab] ++ Str.lit "a1 " ])
  = Some [ (Str.lit "ab", mkEntry (Str.lit "a") 1);
           (Str.lit "cd", mkEntry (Str.lit "shijie") 2) ].
Proof. vm_compute. reflexivity. Qed.

(** Whitespace and digits follow Unicode: an ideographic space (U+3000) in
    front of the word is stripped and a full-width digit (U+FF13) counts as a
    digit. *)
Example parse_line_unicode_run :
  parse_line (Str.lit "　你好" ++ [Text.tab] ++ Str.lit "ni３hao3")
  = Some (Str.lit "你好", mkEntry (Str.lit "nihao") 2).
Proof. vm_compute. reflexivity. Qed.

(** ** Dict assignment *)

Lemma lookup_setitem (d : word_dict) (w w' : str) (e : entry) :
  lookup (setitem d w e) w' = if Str.eqb w w' then Some e else lookup d w'.
Proof.
  induction d as [|[w0 e0] d IH]; cbn [setitem lookup].
  - reflexivity.
  - destruct (str_eqb_spec w0 w) as [->|Hne]; cbn [lookup].
    + destruct (str_eqb_spec w w'); reflexivity.
    + rewrite IH. destruct (str_eqb_spec w0 w') as [->|Hne'].
      * destruct (str_eqb_spec w w'); [congruence | reflexivity].
      * reflexivity.
Qed.

Lemma keys_setitem (d : word_dict) (w : str) (e : entry) :
  keys (setitem d w e) = if in_dec str_eq_dec w (keys d) then keys d
                         else keys d ++ [w].
Proof.
  induction d as [|[w0 e0] d IH]; cbn [setitem keys map fst].
  - reflexivity.
  - fold (keys d). destruct (str_eqb_spec w0 w) as [->|Hne]; cbn [keys map fst].
    + destruct (in_dec str_eq_dec w (w :: keys d)) as [_|Hn]; [reflexivity|].
      exfalso. apply Hn. now left.
    + fold (keys (setitem d w e)). rewrite IH.
      destruct (in_dec str_eq_dec w (keys d)) as [Hin|Hnin];
        destruct (in_dec str_eq_dec w (w0 :: keys d)) as [Hin'|Hnin'];
        try reflexivity.
      * exfalso. apply Hnin'. now right.
      * destruct Hin' as [Heq|Hin']; [congruence | contradiction].
Qed.

Lemma setitem_NoDup (d : word_dict) (w : str) (e : entry) :
  NoDup (keys d) -> NoDup (keys (setitem d w e)).
Proof.
  intros Hnd. rewrite keys_setitem.
  destruct (in_dec str_eq_dec w (keys d)) as [Hin|Hnin]; [exact Hnd|].
  apply NoDup_app; [exact Hnd | repeat constructor; simpl; tauto |].
  intros x Hx [<-|[]]. contradiction.
Qed.

Lemma setitem_In (d : word_dict) (w : str) (e : entry) (we : str * entry) :
  In we (setitem d w e) -> we = (w, e) \/ In we d.
Proof.
  induction d as [|[w0 e0] d IH]; cbn [setitem].
  - intros [<-|[]]. now left.
  - destruct (str_eqb_spec w0 w) as [->|Hne].
    + intros [<-|Hin]; [now left | right; now right].
    + intros [<-|Hin]; [right; now left|].
      destruct (IH Hin); [now left | right; now right].
Qed.

(** ** load_word_list *)

Lemma load_lines_NoDup (lines : list str) :
  forall acc, NoDup (keys acc) -> NoDup (keys (load_lines lines acc)).
Proof.
  induction lines as [|line rest IH]; intros acc Hnd; cbn [load_lines].
  - exact Hnd.
  - destruct (parse_line line) as [[w e]|]; [|exact (IH acc Hnd)].
    apply IH. now apply setitem_NoDup.
Qed.

Lemma load_lines_In (lines : list str) :
  forall acc we,
    In we (load_lines lines acc) ->
    In we acc \/ exists line, In line lines /\ parse_line line = Some we.
Proof.
  induction lines as [|line rest IH]; intros acc we Hin; cbn [load_lines] in Hin.
  - now left.
  - destruct (parse_line line) as [[w e]|] eqn:Hline.
    + destruct (IH _ _ Hin) as [Hacc|(l & Hl & Hp)].
      * destruct (setitem_In _ _ _ _ Hacc) as [->|Hacc']; [|now left].
        right. exists line. split; [now left | exact Hline].
      * right. exists l. split; [now right | exact Hp].
    + destruct (IH _ _ Hin) as [Hacc|(l & Hl & Hp)]; [now left|].
      right. exists l. split; [now right | exact Hp].
Qed.

Lemma load_lines_lookup (lines : list str) :
  forall acc w,
    lookup (load_lines lines acc) w
    = match last_entry lines w with
      | Some e => Some e
      | None => lookup acc w
      end.
Proof.
  induction lines as [|line rest IH]; intros acc w; cbn [load_lines last_entry].
  - reflexivity.
  - destruct (parse_line line) as [[w0 e0]|]; rewrite IH;
      destruct (last_entry rest w); try reflexivity.
    rewrite lookup_setitem. now destruct (Str.eqb w0 w).
Qed.

(** X1.  The catalog that [load_word_list] returns is a dict: its keys are
    pairwise distinct, whatever the lines of the file. *)
Theorem load_word_list_keys_distinct (lines : list str) :
  exists d, load_word_list (Some lines) = Some d /\ NoDup (keys d).
Proof.
  eexists. split; [reflexivity|]. apply load_lines_NoDup. constructor.
Qed.

(** X2.  Looking a word up in the loaded catalog gives the entry of the last
    line of the file whose first field is that word, and nothing when no line
    with two fields starts with it. *)
Theorem load_word_list_last_line_wins (lines : list str) :
  exists d, load_word_list (Some lines) = Some d
            /\ forall w, lookup d w = last_entry lines w.
Proof.
  eexists. split; [reflexivity|]. intros w.
  rewrite load_lines_lookup. now destruct (last_entry lines w).
Qed.

(** ** The fields of one line *)

Lemma remove_digits_no_digit (s : str) (c : char) :
  Str.mem c (Text.remove_digits s) = true -> Text.is_digit c = false.
Proof.
  induction s as [|a s IH]; cbn [Text.remove_digits Str.mem]; [discriminate|].
  destruct (Text.is_digit a) eqn:Ha; [exact IH|].
  cbn [Str.mem]. intros H. apply orb_true_iff in H. destruct H as [H|H].
  - apply N.eqb_eq in H. now subst.
  - exact (IH H).
Qed.

Lemma remove_char_mem (x c : char) (s : str) :
  Str.mem c (Text.remove_char x s) = true -> c <> x /\ Str.mem c s = true.
Proof.
  induction s as [|a s IH]; cbn [Text.remove_char Str.mem]; [discriminate|].
  destruct (N.eqb_spec a x) as [->|Hne].
  - intros H. destruct (IH H) as [H1 H2]. rewrite H2, orb_true_r. auto.
  - cbn [Str.mem]. intros H. apply orb_true_iff in H. destruct H as [H|H].
    + apply N.eqb_eq in H. subst. rewrite N.eqb_refl. auto.
    + destruct (IH H) as [H1 H2]. rewrite H2, orb_true_r. auto.
Qed.

Lemma split_parts (sep : char) (s : str) :
  split_ok sep (Text.split sep s).
Proof.
  unfold split_ok.
  induction s as [|c s IH]; cbn [Text.split].
  - split; [discriminate | repeat constructor].
  - destruct IH as [Hne Hall]. destruct (N.eqb_spec c sep) as [->|Hc].
    + split; [discriminate | constructor; [reflexivity | exact Hall]].
    + destruct (Text.split sep s) as [|p ps]; [congruence|].
      inversion Hall as [|? ? Hp Hps]; subst.
      split; [discriminate|]. constructor; [|exact Hps].
      cbn [Str.mem]. rewrite Hp, orb_false_r. now apply N.eqb_neq.
Qed.

Lemma lstrip_head (s : str) (c : char) (r : str) :
  Text.lstrip s = c :: r -> Text.is_space c = false.
Proof.
  induction s as [|a s IH]; cbn [Text.lstrip]; [discriminate|].
  destruct (Text.is_space a) eqn:Ha; [exact IH|]. now intros [= <- _].
Qed.

Lemma rstrip_head (s : str) :
  Text.rstrip s = []
  \/ exists c r r', s = c :: r /\ Text.rstrip s = c :: r'.
Proof.
  destruct s as [|c r]; [now left|]. cbn [Text.rstrip].
  destruct (Text.rstrip r) as [|c' r'].
  - destruct (Text.is_space c); [now left | right; now exists c, r, []].
  - right. now exists c, r, (c' :: r').
Qed.

Lemma strip_head (s : str) (c : char) (r : str) :
  Text.strip s = c :: r -> Text.is_space c = false.
Proof.
  unfold Text.strip. intros H.
  destruct (rstrip_head (Text.lstrip s)) as [He|(c0 & r0 & r' & Hl & Hr)];
    [congruence|].
  rewrite Hr in H. injection H as -> _. exact (lstrip_head _ _ _ Hl).
Qed.

Lemma split_first_nonempty (sep c : char) (r : str) :
  c <> sep ->
  exists p ps, Text.split sep (c :: r) = (c :: p) :: ps.
Proof.
  intros Hc. cbn [Text.split].
  destruct (N.eqb_spec c sep); [contradiction|].
  destruct (Text.split sep r) as [|p ps]; [now exists [], [] | now exists p, ps].
Qed.

Lemma tab_is_space : Text.is_space Text.tab = true.
Proof. vm_compute. reflexivity. Qed.

Lemma parse_line_fields (line w : str) (e : entry) :
  parse_line line = Some (w, e) ->
  w <> []
  /\ Str.mem Text.tab w = false
  /\ 0 <= char_count e
  /\ (forall c, Str.mem c (pinyin e) = true ->
                Text.is_digit c = false /\ c <> Text.apostrophe).
Proof.
  unfold parse_line. intros H.
  pose proof (split_parts Text.tab (Text.strip line)) as [_ Hall].
  destruct (Text.strip line) as [|c r] eqn:Hstrip; [discriminate|].
  pose proof (strip_head _ _ _ Hstrip) as Hc.
  destruct (split_first_nonempty Text.tab c r) as (p & ps & Hsplit).
  { intros ->. rewrite tab_is_space in Hc. discriminate. }
  rewrite Hsplit in H, Hall. destruct ps as [|raw ps]; [discriminate|].
  injection H as <- <-. inversion Hall as [|? ? Hp _]; subst.
  split; [discriminate|]. split; [exact Hp|]. split; [cbn; lia|].
  cbn [pinyin]. intros x Hx. apply remove_char_mem in Hx.
  destruct Hx as [Hx1 Hx2]. split; [|exact Hx1].
  exact (remove_digits_no_digit _ _ Hx2).
Qed.

(** X3.  Every entry of the loaded catalog has a non-empty word without a tab,
    a non-negative character count, and a reading that contains no digit and
    no apostrophe. *)
Theorem load_word_list_entries (lines : list str) :
  exists d,
    load_word_list (Some lines) = Some d
    /\ forall w e,
        In (w, e) d ->
        w <> []
        /\ Str.mem Text.tab w = false
        /\ 0 <= char_count e
        /\ (forall c, Str.mem c (pinyin e) = true ->
                      Text.is_digit c = false /\ c <> Text.apostrophe).
Proof.
  eexists. split; [reflexivity|]. intros w e Hin.
  destruct (load_lines_In _ _ _ Hin) as [[]|(line & _ & Hline)].
  exact (parse_line_fields _ _ _ Hline).
Qed.

(** ** A well-formed line *)

Lemma lstrip_length (s : str) :
  (List.length (Text.lstrip s) <= List.length s)%nat.
Proof.
  induction s as [|c s IH]; cbn [Text.lstrip]; [lia|].
  destruct (Text.is_space c); cbn [List.length]; lia.
Qed.

Lemma lstrip_fixed (c : char) (r : str) :
  Text.lstrip (c :: r) = c :: r -> Text.is_space c = false.
Proof.
  cbn [Text.lstrip]. destruct (Text.is_space c); [|reflexivity].
  intros H. pose proof (lstrip_length r) as Hlen. rewrite H in Hlen.
  cbn [List.length] in Hlen. lia.
Qed.

Lemma rstrip_all_space (ws : str) :
  Text.all_space ws = true -> Text.rstrip ws = [].
Proof.
  induction ws as [|c ws IH]; cbn [Text.all_space Text.rstrip]; [reflexivity|].
  intros H. apply andb_prop in H. destruct H as [Hc Hws].
  now rewrite (IH Hws), Hc.
Qed.

Lemma rstrip_trailing (s ws : str) :
  Text.all_space ws = true -> Text.rstrip (s ++ ws) = Text.rstrip s.
Proof.
  intros Hws. induction s as [|c s IH]; cbn [app Text.rstrip].
  - now apply rstrip_all_space.
  - now rewrite IH.
Qed.

Lemma rstrip_app (a b : str) :
  Text.rstrip b <> [] ->
  Text.rstrip (a ++ b) = a ++ Text.rstrip b.
Proof.
  intros Hb. induction a as [|c a IH]; cbn [app Text.rstrip]; [reflexivity|].
  rewrite IH. destruct (a ++ Text.rstrip b) eqn:Hab; [|reflexivity].
  destruct a; cbn [app] in Hab; [contradiction | discriminate].
Qed.

Lemma split_no_sep (sep : char) (s : str) :
  Str.mem sep s = false -> Text.split sep s = [s].
Proof.
  induction s as [|c s IH]; cbn [Str.mem Text.split]; [reflexivity|].
  intros H. apply orb_false_elim in H. destruct H as [Hc Hs].
  now rewrite Hc, (IH Hs).
Qed.

Lemma split_app (sep : char) (a b : str) :
  Str.mem sep a = false ->
  Text.split sep (a ++ sep :: b) = a :: Text.split sep b.
Proof.
  induction a as [|c a IH]; cbn [Str.mem app Text.split].
  - intros _. now rewrite N.eqb_refl.
  - intros H. apply orb_false_elim in H. destruct H as [Hc Ha].
    now rewrite Hc, (IH Ha).
Qed.

(** X4.  A line made of a word, a tab, a tone-annotated reading and trailing
    whitespace (the newline) is stored under the word, with the reading
    without its digits and apostrophes and with the number of its digits as
    character count; the word must be non-empty, free of tabs and of leading
    whitespace, the reading non-empty, free of tabs and of trailing
    whitespace.  Whitespace and digits are those of Unicode. *)
Theorem parse_line_well_formed (w raw ws : str) :
  w <> [] -> Text.lstrip w = w -> Str.mem Text.tab w = false ->
  raw <> [] -> Text.rstrip raw = raw -> Str.mem Text.tab raw = false ->
  Text.all_space ws = true ->
  parse_line (w ++ Text.tab :: (raw ++ ws))
  = Some (w, mkEntry (Text.remove_char Text.apostrophe (Text.remove_digits raw))
                     (Z.of_nat (List.length (Text.findall_digits raw)))).
Proof.
  intros Hw Hlw Htw Hraw Hrr Htr Hws. unfold parse_line.
  assert (Hstrip : Text.strip (w ++ Text.tab :: (raw ++ ws))
                   = w ++ Text.tab :: raw).
  { unfold Text.strip. destruct w as [|c r]; [congruence|].
    apply lstrip_fixed in Hlw. cbn [app Text.lstrip]. rewrite Hlw.
    assert (Hrs : Text.rstrip (raw ++ ws) = raw)
      by (now rewrite (rstrip_trailing _ _ Hws)).
    assert (E : c :: r ++ Text.tab :: raw ++ ws
                = ((c :: r) ++ [Text.tab]) ++ (raw ++ ws))
      by (now rewrite <- app_assoc).
    rewrite E, rstrip_app by (now rewrite Hrs).
    now rewrite Hrs, <- app_assoc. }
  rewrite Hstrip, (split_app _ _ _ Htw), (split_no_sep _ _ Htr). reflexivity.
Qed.

Lemma parse_line_well_formed_witness :
  parse_line (Str.lit "你好" ++ Text.tab :: (Str.lit "ni３'hao3" ++ [Text.newline]))
  = Some (Str.lit "你好",
          mkEntry (Text.remove_char Text.apostrophe
                     (Text.remove_digits (Str.lit "ni３'hao3")))
                  (Z.of_nat (List.length (Text.findall_digits (Str.lit "ni３'hao3"))))).
Proof.
  apply (parse_line_well_formed (Str.lit "你好") (Str.lit "ni３'hao3")
           [Text.newline]);
    vm_compute; solve [discriminate | reflexivity].
Defined.

(** ** generate_complex_password: what the result is made of *)

Lemma In_chars_mem (c : char) (s : str) :
  In c (Str.chars s) -> Str.mem c s = true.
Proof.
  unfold Str.chars.
  induction s as [|a s IH]; cbn [In Str.mem]; [tauto|].
  intros [->|Hin]; [now rewrite N.eqb_refl|].
  rewrite (IH Hin). apply orb_true_r.
Qed.

Lemma pick_filler_Ret (g g' : Rng) (c : char) :
  pick_filler g = Ret c g' -> is_filler c = true /\ g' = advance 2 g.
Proof.
  unfold pick_filler, random_lt_half. intros H.
  apply bind_Ret in H. destruct H as (b & g1 & Hb & H).
  apply bind_Ret in Hb. destruct Hb as (n & g0 & Hn & Hb).
  unfold draw in Hn. injection Hn as <- <-. unfold ret in Hb.
  injection Hb as <- <-. unfold is_filler.
  destruct (Nat.even _); apply choice_Ret in H; destruct H as [Hin ->];
    apply In_chars_mem in Hin; rewrite Hin; split;
    auto using orb_true_r.
Qed.

Lemma interleave_Ret (todo : list str) :
  forall n i password separators g password' separators' g',
    interleave n i todo password separators g = Ret (password', separators') g' ->
    exists new,
      separators' = separators ++ new
      /\ Forall (fun c => is_filler c = true) new.
Proof.
  induction todo as [|p rest IH]; intros n i pw seps g pw' seps' g' H;
    cbn [interleave] in H.
  - injection H as _ <- _. exists []. now rewrite app_nil_r.
  - destruct (Z.of_nat i <? Z.of_nat n - 1).
    + apply bind_Ret in H. destruct H as (sep & g1 & Hsep & H).
      apply pick_filler_Ret in Hsep. destruct Hsep as [Hsep _].
      apply IH in H. destruct H as (new & -> & Hnew).
      exists (sep :: new). rewrite <- app_assoc. split; [reflexivity|].
      now constructor.
    + exact (IH _ _ _ _ _ _ _ _ H).
Qed.

Lemma trailing_two_fillers (password : list char) (g : Rng) :
  exists c1 c2,
    trailing 2 password [] g = Ret (password ++ [c1; c2], [c1; c2]) (advance 4 g)
    /\ is_filler c1 = true /\ is_filler c2 = true.
Proof.
  destruct (pick_filler_run g) as (c1 & H1).
  destruct (pick_filler_run (advance 2 g)) as (c2 & H2).
  exists c1, c2. split.
  - cbn [trailing]. unfold bind. rewrite H1, H2.
    unfold ret. now rewrite <- app_assoc.
  - split; [exact (proj1 (pick_filler_Ret _ _ _ H1))
           | exact (proj1 (pick_filler_Ret _ _ _ H2))].
Qed.

(** The result of [generate_complex_password] from the lists its word loop
    returns, with the provenance of every separator. *)
Lemma generate_complex_password_parts fuel d min_length capitalize g
      pinyins chinese_chars g1 :
  collect_words fuel d min_length capitalize [] [] g
  = Ret (pinyins, chinese_chars) g1 ->
  exists separators c1 c2 g',
    generate_complex_password fuel d min_length capitalize g
    = Ret (Str.of_chars (weave pinyins separators ++ [c1; c2]),
           hint_weave (combine chinese_chars pinyins) separators
           ++ Str.of_chars [c1; c2]) g'
    /\ List.length separators = (List.length pinyins - 1)%nat
    /\ Forall (fun c => is_filler c = true) (separators ++ [c1; c2]).
Proof.
  intros Hwords.
  destruct (interleave_run pinyins (List.length pinyins) 0 [] [] g1 eq_refl)
    as (seps & g2 & Hsep & Hlen).
  destruct (interleave_Ret _ _ _ _ _ _ _ _ _ Hsep) as (new & Hnew & Hfill).
  cbn [app] in Hnew. subst new.
  destruct (trailing_two_fillers (weave pinyins seps) g2)
    as (c1 & c2 & Htr & Hc1 & Hc2).
  exists seps, c1, c2, (advance 4 g2). split; [|split; [exact Hlen|]].
  - unfold generate_complex_password. unfold bind at 1. rewrite Hwords.
    unfold bind at 1. rewrite Hsep. cbn [app].
    unfold bind at 1. rewrite Htr. unfold ret.
    rewrite join_empty_app, complex_hints_join, join_empty_chars.
    reflexivity.
  - apply Forall_app. split; [exact Hfill|]. now repeat constructor.
Qed.

(** The word loop adds no word once the threshold is reached. *)
Lemma collect_words_minimal (fuel : nat) d min_length capitalize :
  forall pinyins chinese_chars g pinyins' chinese_chars' g',
    collect_words fuel d min_length capitalize pinyins chinese_chars g
    = Ret (pinyins', chinese_chars') g' ->
    (pinyins' = pinyins /\ min_length - 3 <= Str.sum_len pinyins)
    \/ exists body last,
        pinyins' = body ++ [last] /\ Str.sum_len body < min_length - 3.
Proof.
  induction fuel as [|fuel IH]; intros ps cs g ps' cs' g' Hrun;
    rewrite collect_words_step in Hrun;
    destruct (Z.ltb_spec (Str.sum_len ps) (min_length - 3)) as [Hlt|Hge];
    try discriminate; try (injection Hrun as <- <- <-; now left).
  apply bind_Ret in Hrun. destruct Hrun as (w & g1 & _ & Hrun).
  apply bind_Ret in Hrun. destruct Hrun as (e & g2 & _ & Hrun).
  apply IH in Hrun. destruct Hrun as [[-> _]|Hmin]; [|now right].
  right. now exists ps, (reading capitalize e).
Qed.

Lemma collect_words_Raise (fuel : nat) d min_length capitalize :
  forall pinyins chinese_chars g e,
    collect_words fuel d min_length capitalize pinyins chinese_chars g = Raise e ->
    e = IndexError /\ d = [].
Proof.
  induction fuel as [|fuel IH]; intros ps cs g e Hrun;
    rewrite collect_words_step in Hrun;
    destruct (Str.sum_len ps <? min_length - 3); try discriminate.
  destruct d as [|we d'] eqn:Hd.
  - unfold bind in Hrun. cbn in Hrun. injection Hrun as <-. auto.
  - rewrite <- Hd in *.
    destruct (choice_key_run d g) as (w & e0 & Hw & He & _);
      [subst d; discriminate|].
    unfold bind at 1 in Hrun. rewrite Hw in Hrun.
    unfold bind at 1 in Hrun. rewrite He in Hrun.
    apply IH in Hrun. destruct Hrun as [_ Hnil]. congruence.
Qed.

(** X5.  Every result of [generate_complex_password] is made of readings of
    catalog words: the secret is these readings in order with exactly one
    character between two consecutive readings and two characters at the end,
    each of them one of [!@#*~0123456789]; the hint gives each word with its
    reading, with the same characters at the same places. *)
Theorem complex_password_structure fuel d min_length capitalize g secret hint g' :
  generate_complex_password fuel d min_length capitalize g = Ret (secret, hint) g' ->
  exists pinyins chinese_chars separators c1 c2,
    Forall2 (reads d capitalize) chinese_chars pinyins
    /\ List.length separators = (List.length pinyins - 1)%nat
    /\ Forall (fun c => is_filler c = true) (separators ++ [c1; c2])
    /\ secret = Str.of_chars (weave pinyins separators ++ [c1; c2])
    /\ hint = hint_weave (combine chinese_chars pinyins) separators
              ++ Str.of_chars [c1; c2].
Proof.
  intros Hrun.
  destruct (generate_complex_password_words _ _ _ _ _ _ _ _ Hrun)
    as (ps & cs & g1 & Hwords).
  destruct (collect_words_sound _ _ _ _ _ _ _ _ _ _ Hwords (Forall2_nil _))
    as [Hsel _].
  destruct (generate_complex_password_parts _ _ _ _ _ _ _ _ Hwords)
    as (seps & c1 & c2 & g2 & Hparts & Hlen & Hfill).
  rewrite Hparts in Hrun. injection Hrun as <- <- _.
  exists ps, cs, seps, c1, c2. auto.
Qed.

Lemma complex_password_structure_witness :
  exists pinyins chinese_chars separators c1 c2,
    Forall2 (reads demo true) chinese_chars pinyins
    /\ List.length separators = (List.length pinyins - 1)%nat
    /\ Forall (fun c => is_filler c = true) (separators ++ [c1; c2])
    /\ Str.lit "Nihao*Shijie!#"
       = Str.of_chars (weave pinyins separators ++ [c1; c2])
    /\ Str.lit "你好(Nihao)*世界(Shijie)!#"
       = hint_weave (combine chinese_chars pinyins) separators
         ++ Str.of_chars [c1; c2].
Proof.
  eapply (complex_password_structure 9 demo 12 true
            (scripted [0; 1; 2; 3; 4; 5; 6; 7]%nat)).
  vm_compute. reflexivity.
Defined.

(** X6.  The word loop of [generate_complex_password] stops at the first word
    that reaches the threshold: either no word is selected (and
    [min_length <= 3]), or the readings before the last selected one sum to
    less than [min_length - 3], so the secret is shorter than [min_length]
    plus the length of the last reading plus the number of earlier words.
    Lengths are Python's [len], counted in characters. *)
Theorem complex_password_no_extra_word fuel d min_length capitalize g secret hint g' :
  generate_complex_password fuel d min_length capitalize g = Ret (secret, hint) g' ->
  exists pinyins chinese_chars g1,
    collect_words fuel d min_length capitalize [] [] g
    = Ret (pinyins, chinese_chars) g1
    /\ ((pinyins = [] /\ min_length <= 3 /\ Str.len secret = 2)
        \/ exists body last,
            pinyins = body ++ [last]
            /\ Str.sum_len body < min_length - 3
            /\ Str.len secret
               < min_length + Str.len last + Z.of_nat (List.length body)).
Proof.
  intros Hrun.
  destruct (generate_complex_password_words _ _ _ _ _ _ _ _ Hrun)
    as (ps & cs & g1 & Hwords).
  destruct (generate_complex_password_shape _ _ _ _ _ _ _ _ Hwords)
    as (seps & c1 & c2 & g2 & Hshape & Hlen).
  rewrite Hshape in Hrun. injection Hrun as <- _ _.
  exists ps, cs, g1. split; [exact Hwords|].
  assert (Hsecret : Str.len (Str.of_chars (weave ps seps ++ [c1; c2]))
                    = Str.sum_len ps + Z.of_nat (List.length ps - 1) + 2).
  { unfold Str.len, Str.of_chars. rewrite length_app, Nat2Z.inj_add.
    rewrite weave_length by lia. rewrite Hlen. cbn [List.length]. lia. }
  destruct (collect_words_minimal _ _ _ _ _ _ _ _ _ _ Hwords)
    as [[-> Hge]|(body & last & -> & Hbody)].
  - left. cbn [Str.sum_len] in Hge. rewrite Hsecret. cbn. split; [reflexivity|lia].
  - right. exists body, last. split; [reflexivity|]. split; [exact Hbody|].
    rewrite Hsecret, sum_len_app, length_app. cbn [Str.sum_len List.length].
    lia.
Qed.

Lemma complex_password_no_extra_word_witness :
  exists pinyins chinese_chars g1,
    collect_words 9 umlauts 6 false [] []
      (scripted [0; 1; 1; 4; 1; 2; 1; 3]%nat)
    = Ret (pinyins, chinese_chars) g1
    /\ ((pinyins = [] /\ 6 <= 3 /\ Str.len (Str.lit "nü4üe23") = 2)
        \/ exists body last,
            pinyins = body ++ [last]
            /\ Str.sum_len body < 6 - 3
            /\ Str.len (Str.lit "nü4üe23")
               < 6 + Str.len last + Z.of_nat (List.length body)).
Proof.
  eapply (complex_password_no_extra_word 9 umlauts 6 false
            (scripted [0; 1; 1; 4; 1; 2; 1; 3]%nat)).
  vm_compute. reflexivity.
Defined.

(** X7.  With [min_length <= 3] no word is drawn, whatever the catalog (the
    empty one too) and the fuel: the secret and the hint are the same two
    characters of [!@#*~0123456789], and four draws are consumed. *)
Theorem complex_password_short fuel d min_length capitalize g :
  min_length <= 3 ->
  exists c1 c2,
    generate_complex_password fuel d min_length capitalize g
    = Ret (Str.of_chars [c1; c2], Str.of_chars [c1; c2]) (advance 4 g)
    /\ is_filler c1 = true /\ is_filler c2 = true.
Proof.
  intros Hshort.
  destruct (trailing_two_fillers [] g) as (c1 & c2 & Htr & Hc1 & Hc2).
  exists c1, c2. split; [|auto].
  unfold generate_complex_password. unfold bind at 1.
  rewrite collect_words_step. cbn [Str.sum_len].
  destruct (Z.ltb_spec 0 (min_length - 3)); [lia|].
  unfold ret at 1. cbn [interleave List.length]. unfold bind at 1, ret at 1.
  unfold bind. rewrite Htr. reflexivity.
Qed.

Lemma complex_password_short_witness :
  exists c1 c2,
    generate_complex_password 0 demo 3 false (scripted [0; 0; 1; 7]%nat)
    = Ret (Str.of_chars [c1; c2], Str.of_chars [c1; c2])
          (advance 4 (scripted [0; 0; 1; 7]%nat))
    /\ is_filler c1 = true /\ is_filler c2 = true.
Proof.
  apply (complex_password_short 0 demo 3 false (scripted [0; 0; 1; 7]%nat)).
  lia.
Defined.

(** X8.  [generate_complex_password] raises nothing but the [IndexError] of
    [random.choice], and only on the empty catalog with [min_length > 3]:
    a dict lookup of a drawn key never fails. *)
Theorem complex_password_only_IndexError fuel d min_length capitalize g e :
  generate_complex_password fuel d min_length capitalize g = Raise e ->
  e = IndexError /\ d = [] /\ 3 < min_length.
Proof.
  intros Hrun.
  destruct (collect_words fuel d min_length capitalize [] [] g)
    as [[ps cs] g1|e'|] eqn:Hwords.
  - destruct (generate_complex_password_shape _ _ _ _ _ _ _ _ Hwords)
      as (seps & c1 & c2 & g2 & Hshape & _). congruence.
  - unfold generate_complex_password, bind in Hrun. rewrite Hwords in Hrun.
    injection Hrun as <-.
    destruct (collect_words_Raise _ _ _ _ _ _ _ _ Hwords) as [-> ->].
    split; [reflexivity|]. split; [reflexivity|].
    rewrite collect_words_step in Hwords. cbn [Str.sum_len] in Hwords.
    destruct (Z.ltb_spec 0 (min_length - 3)); [lia | discriminate].
  - unfold generate_complex_password, bind in Hrun. rewrite Hwords in Hrun.
    discriminate.
Qed.

Lemma complex_password_only_IndexError_witness :
  IndexError = IndexError /\ @nil (str * entry) = [] /\ 3 < 10.
Proof.
  apply (complex_password_only_IndexError 1 [] 10 false (scripted []) IndexError).
  reflexivity.
Defined.

(** ** The capitalize flag of generate_complex_password *)

(** [capitalize_keeps_length] is checked entry by entry; it fails for a
    reading such as [ßa], whose capital form [SSa] is longer. *)
Example capitalize_keeps_length_run :
  capitalize_keeps_length demo = true
  /\ capitalize_keeps_length umlauts = false.
Proof. split; vm_compute; reflexivity. Qed.

Lemma capitalize_keeps_length_In d (w : str) (e : entry) :
  capitalize_keeps_length d = true -> In (w, e) d ->
  Str.len (capitalize_pinyin (pinyin e)) = Str.len (pinyin e).
Proof.
  unfold capitalize_keeps_length. rewrite forallb_forall. intros H Hin.
  specialize (H _ Hin). cbn [snd] in H. apply Nat.eqb_eq in H.
  unfold Str.len. now rewrite H.
Qed.

Lemma collect_words_capitalized (fuel : nat) d min_length :
  capitalize_keeps_length d = true ->
  forall pinyins chinese_chars g pinyins' chinese_chars' g1,
    Str.sum_len (map capitalize_pinyin pinyins) = Str.sum_len pinyins ->
    collect_words fuel d min_length false pinyins chinese_chars g
    = Ret (pinyins', chinese_chars') g1 ->
    collect_words fuel d min_length true
      (map capitalize_pinyin pinyins) chinese_chars g
    = Ret (map capitalize_pinyin pinyins', chinese_chars') g1.
Proof.
  intros Hkeep.
  induction fuel as [|fuel IH]; intros ps cs g ps' cs' g1 Hsum Hrun;
    rewrite collect_words_step in Hrun; rewrite collect_words_step;
    rewrite Hsum;
    destruct (Str.sum_len ps <? min_length - 3); try discriminate;
    try (injection Hrun as <- <- <-; reflexivity).
  apply bind_Ret in Hrun. destruct Hrun as (w & g2 & Hw & Hrun).
  apply bind_Ret in Hrun. destruct Hrun as (e & g3 & He & Hrun).
  unfold bind at 1. rewrite Hw. unfold bind at 1. rewrite He.
  apply getitem_Ret in He. destruct He as [He _].
  apply IH in Hrun.
  - rewrite map_app in Hrun. exact Hrun.
  - rewrite map_app, !sum_len_app, Hsum. cbn [map Str.sum_len reading].
    now rewrite (capitalize_keeps_length_In d w e Hkeep (lookup_In _ _ _ He)).
Qed.

(** The separators drawn between [pinyins] do not depend on the readings, only
    on how many there are. *)
Lemma interleave_mapped (f : str -> str) (todo : list str) :
  forall n i password password2 separators g,
    (i + List.length todo = n)%nat ->
    exists new g',
      interleave n i todo password separators g
      = Ret (password ++ weave todo new, separators ++ new) g'
      /\ interleave n i (map f todo) password2 separators g
         = Ret (password2 ++ weave (map f todo) new, separators ++ new) g'
      /\ List.length new = (List.length todo - 1)%nat.
Proof.
  induction todo as [|p rest IH]; intros n i pw pw2 seps g Hn.
  - exists [], g. cbn. now rewrite !app_nil_r.
  - cbn [interleave map]. cbn [List.length] in Hn.
    destruct (Z.ltb_spec (Z.of_nat i) (Z.of_nat n - 1)) as [Hlt|Hge].
    + destruct (pick_filler_run g) as (sep & Hsep).
      unfold bind. rewrite Hsep.
      destruct (IH n (S i) ((pw ++ Str.chars p) ++ [sep])
                  ((pw2 ++ Str.chars (f p)) ++ [sep]) (seps ++ [sep])
                  (advance 2 g)) as (new & g' & Hrun & Hrun2 & Hlen); [lia|].
      exists (sep :: new), g'. rewrite Hrun, Hrun2. split; [|split].
      * cbn [weave]. now rewrite <- !app_assoc.
      * cbn [weave]. now rewrite <- !app_assoc.
      * cbn [List.length]. lia.
    + destruct rest as [|q rest]; [|cbn [List.length] in Hn; lia].
      exists [], g. cbn. now rewrite !app_nil_r.
Qed.

Lemma trailing_two_any (g : Rng) :
  exists c1 c2,
    forall password,
      trailing 2 password [] g
      = Ret (password ++ [c1; c2], [c1; c2]) (advance 4 g).
Proof.
  destruct (pick_filler_run g) as (c1 & H1).
  destruct (pick_filler_run (advance 2 g)) as (c2 & H2).
  exists c1, c2. intros pw. cbn [trailing]. unfold bind. rewrite H1, H2.
  unfold ret. now rewrite <- app_assoc.
Qed.

Lemma generate_complex_password_from_parts fuel d min_length capitalize g
      pinyins chinese_chars g1 separators g2 c1 c2 g3 :
  collect_words fuel d min_length capitalize [] [] g
  = Ret (pinyins, chinese_chars) g1 ->
  interleave (List.length pinyins) 0 pinyins [] [] g1
  = Ret (weave pinyins separators, separators) g2 ->
  trailing 2 (weave pinyins separators) [] g2
  = Ret (weave pinyins separators ++ [c1; c2], [c1; c2]) g3 ->
  generate_complex_password fuel d min_length capitalize g
  = Ret (Str.of_chars (weave pinyins separators ++ [c1; c2]),
         hint_weave (combine chinese_chars pinyins) separators
         ++ Str.of_chars [c1; c2]) g3.
Proof.
  intros Hwords Hsep Htr.
  unfold generate_complex_password. unfold bind at 1. rewrite Hwords.
  unfold bind at 1. rewrite Hsep.
  unfold bind at 1. rewrite Htr. unfold ret.
  rewrite join_empty_app, complex_hints_join, join_empty_chars.
  reflexivity.
Qed.

(** X9.  On a catalog whose readings keep their length when capitalised (the
    upper-case form of their first character is one character), the
    [capitalize] flag changes neither the words drawn, nor the separators, nor
    the number of draws of [generate_complex_password]: on the same random
    source the call with [capitalize=True] returns the result of the call with
    [capitalize=False] with every reading capitalised, in the secret and in
    the hint. *)
Theorem complex_password_capitalize fuel d min_length g secret hint g' :
  capitalize_keeps_length d = true ->
  generate_complex_password fuel d min_length false g = Ret (secret, hint) g' ->
  exists pinyins chinese_chars separators c1 c2,
    Forall2 (reads d false) chinese_chars pinyins
    /\ secret = Str.of_chars (weave pinyins separators ++ [c1; c2])
    /\ hint = hint_weave (combine chinese_chars pinyins) separators
              ++ Str.of_chars [c1; c2]
    /\ generate_complex_password fuel d min_length true g
       = Ret (Str.of_chars
                (weave (map capitalize_pinyin pinyins) separators ++ [c1; c2]),
              hint_weave
                (combine chinese_chars (map capitalize_pinyin pinyins))
                separators
              ++ Str.of_chars [c1; c2]) g'.
Proof.
  intros Hkeep Hrun.
  destruct (generate_complex_password_words _ _ _ _ _ _ _ _ Hrun)
    as (ps & cs & g1 & Hwords).
  pose proof (collect_words_capitalized _ _ _ Hkeep _ _ _ _ _ _ eq_refl Hwords)
    as Hwords'.
  cbn [map] in Hwords'.
  destruct (interleave_mapped capitalize_pinyin ps (List.length ps) 0 [] [] [] g1
              eq_refl) as (seps & g2 & Hsep & Hsep' & _).
  cbn [app] in Hsep, Hsep'.
  destruct (trailing_two_any g2) as (c1 & c2 & Htr).
  pose proof (generate_complex_password_from_parts _ _ _ _ _ _ _ _ _ _ _ _ _
                Hwords Hsep (Htr _)) as Hplain.
  rewrite <- (length_map capitalize_pinyin ps) in Hsep'.
  pose proof (generate_complex_password_from_parts _ _ _ _ _ _ _ _ _ _ _ _ _
                Hwords' Hsep' (Htr _)) as Hcap.
  rewrite Hplain in Hrun. injection Hrun as <- <- <-.
  exists ps, cs, seps, c1, c2.
  split; [|auto].
  exact (proj1 (collect_words_sound _ _ _ _ _ _ _ _ _ _ Hwords (Forall2_nil _))).
Qed.

Lemma complex_password_capitalize_witness :
  exists pinyins chinese_chars separators c1 c2,
    Forall2 (reads demo false) chinese_chars pinyins
    /\ Str.lit "nihao*shijie!#"
       = Str.of_chars (weave pinyins separators ++ [c1; c2])
    /\ Str.lit "你好(nihao)*世界(shijie)!#"
       = hint_weave (combine chinese_chars pinyins) separators
         ++ Str.of_chars [c1; c2]
    /\ generate_complex_password 9 demo 12 true
         (scripted [0; 1; 2; 3; 4; 5; 6; 7]%nat)
       = Ret (Str.of_chars
                (weave (map capitalize_pinyin pinyins) separators ++ [c1; c2]),
              hint_weave
                (combine chinese_chars (map capitalize_pinyin pinyins))
                separators
              ++ Str.of_chars [c1; c2])
             (advance 8 (scripted [0; 1; 2; 3; 4; 5; 6; 7]%nat)).
Proof.
  eapply (complex_password_capitalize 9 demo 12
            (scripted [0; 1; 2; 3; 4; 5; 6; 7]%nat)).
  - vm_compute. reflexivity.
  - vm_compute. reflexivity.
Defined.

(** ** generate_passphrase: what a call can return *)

Lemma sample_Ret {A} (population : list A) (k : Z) (g g' : Rng) (l : list A) :
  sample population k g = Ret l g' ->
  Z.of_nat (List.length l) = k /\ incl l population
  /\ g' = advance (Z.to_nat k) g.
Proof.
  intros H.
  destruct (Z.lt_ge_cases (Z.of_nat (List.length population)) k) as [Hfew|Hok].
  - rewrite (sample_too_many _ _ g Hfew) in H. discriminate.
  - destruct (Z.lt_ge_cases k 0) as [Hneg|Hpos].
    + unfold sample in H. destruct (Z.ltb_spec k 0); [discriminate | lia].
    + destruct (sample_run population k g) as (l' & Hl' & Hlen & Hincl & _);
        [lia|].
      rewrite Hl' in H. injection H as <- <-. auto.
Qed.

Lemma append_readings_Ret d capitalize (words : list str) pinyins g pinyins' g' :
  Forall (fun w => In w (keys d)) words ->
  append_readings d capitalize words pinyins g = Ret pinyins' g' ->
  exists new,
    pinyins' = pinyins ++ new /\ Forall2 (reads d capitalize) words new
    /\ g' = g.
Proof.
  intros Hin H.
  destruct (append_readings_run d capitalize words pinyins g Hin)
    as (new & Hrun & Hsel).
  rewrite Hrun in H. injection H as <- <-. now exists new.
Qed.

(** What the loop of minimum-length mode returns. *)
Lemma draw_words_sound (fuel : nat) d min_length character_count capitalize :
  forall pinyins chinese_chars g r g',
    draw_words fuel d min_length character_count capitalize
      pinyins chinese_chars g = Ret r g' ->
    Forall2 (reads d capitalize) chinese_chars pinyins ->
    match r with
    | None => valid_words d character_count = []
    | Some (pinyins', chinese_chars') =>
        Forall2 (reads d capitalize) chinese_chars' pinyins'
        /\ (3 <= List.length pinyins')%nat
        /\ min_length <= Str.sum_len pinyins'
        /\ (pinyins' = pinyins
            \/ exists body last,
                pinyins' = body ++ [last]
                /\ ((List.length body < 3)%nat \/ Str.sum_len body < min_length))
    end.
Proof.
  induction fuel as [|fuel IH]; intros ps cs g r g' Hrun Hsel;
    rewrite draw_words_step in Hrun;
    destruct (Z.ltb_spec (Z.of_nat (List.length ps)) 3) as [Hl|Hl];
    destruct (Z.ltb_spec (Str.sum_len ps) min_length) as [Hs|Hs];
    cbn [orb] in Hrun; try discriminate;
    try (injection Hrun as <- <-; repeat split; solve [auto | lia]).
  all: destruct (valid_words d character_count) as [|v vs] eqn:Hvw;
         [injection Hrun as <- <-; reflexivity|];
       assert (Hne : valid_words d character_count <> [])
         by (rewrite Hvw; discriminate);
       destruct (draw_one_run d character_count capitalize ps g Hne)
         as (w & p & Hw & Hp & Hin & Hwp);
       rewrite Hvw in Hw;
       unfold bind at 1 in Hrun; rewrite Hw in Hrun;
       unfold bind at 1 in Hrun; rewrite Hp in Hrun;
       apply IH in Hrun;
         [|apply Forall2_app; [exact Hsel | constructor; [exact Hwp | constructor]]];
       destruct r as [[ps' cs']|]; [|rewrite Hrun in Hvw; discriminate];
       destruct Hrun as (H1 & H2 & H3 & [->|Hmin]);
       repeat split; auto; right;
       exists ps, p; (split; [reflexivity|]); solve [left; lia | right; lia].
Qed.

Lemma draw_words_no_Raise (fuel : nat) d min_length character_count capitalize :
  forall pinyins chinese_chars g e,
    draw_words fuel d min_length character_count capitalize
      pinyins chinese_chars g <> Raise e.
Proof.
  induction fuel as [|fuel IH]; intros ps cs g e;
    rewrite draw_words_step;
    destruct ((Z.of_nat (List.length ps) <? 3) || (Str.sum_len ps <? min_length));
    try discriminate.
  destruct (valid_words d character_count) as [|v vs] eqn:Hvw; [discriminate|].
  assert (Hne : valid_words d character_count <> [])
    by (rewrite Hvw; discriminate).
  destruct (draw_one_run d character_count capitalize ps g Hne)
    as (w & p & Hw & Hp & _).
  rewrite Hvw in Hw. unfold bind at 1. rewrite Hw. unfold bind at 1.
  rewrite Hp. apply IH.
Qed.

(** What fixed-count mode returns. *)
Lemma fixed_count_sound fuel d min_length wc character_count capitalize g r g' :
  generate_passphrase fuel d min_length (Some wc) character_count capitalize g
  = Ret r g' ->
  (valid_words d character_count = [] /\ r = ([], no_words_hint))
  \/ exists words pinyins,
      r = passphrase_result words pinyins
      /\ Forall2 (reads d capitalize) words pinyins
      /\ Z.of_nat (List.length words) = Z.max 3 wc.
Proof.
  unfold generate_passphrase. intros H.
  destruct (valid_words d character_count) as [|v vs] eqn:Hvw.
  - left. injection H as <- _. auto.
  - right. apply bind_Ret in H. destruct H as (words & g1 & Hsample & H).
    apply bind_Ret in H. destruct H as (ps & g2 & Hread & H).
    injection H as <- _.
    apply sample_Ret in Hsample. destruct Hsample as (Hlen & Hincl & _).
    apply append_readings_Ret in Hread.
    + destruct Hread as (new & -> & Hsel & _). exists words, new. auto.
    + apply Forall_forall. intros w Hw.
      apply (valid_words_keys d character_count). rewrite Hvw.
      exact (Hincl w Hw).
Qed.

Lemma min_length_mode_sound fuel d min_length character_count capitalize g r g' :
  generate_passphrase fuel d min_length None character_count capitalize g
  = Ret r g' ->
  (valid_words d character_count = [] /\ r = ([], no_words_hint))
  \/ exists pinyins chinese_chars body last,
      r = passphrase_result chinese_chars pinyins
      /\ Forall2 (reads d capitalize) chinese_chars pinyins
      /\ (3 <= List.length pinyins)%nat
      /\ min_length <= Str.sum_len pinyins
      /\ pinyins = body ++ [last]
      /\ ((List.length body < 3)%nat \/ Str.sum_len body < min_length).
Proof.
  unfold generate_passphrase. intros H.
  apply bind_Ret in H. destruct H as (r0 & g1 & Hloop & H).
  apply draw_words_sound in Hloop; [|constructor].
  destruct r0 as [[ps cs]|].
  - right. injection H as <- _.
    destruct Hloop as (Hsel & Hlen & Hsum & [->|(body & last & -> & Hmin)]).
    + cbn [List.length] in Hlen. lia.
    + exists (body ++ [last]), cs, body, last. auto 10.
  - left. injection H as <- _. auto.
Qed.

(** X10.  In minimum-length mode a call that returns gives either the
    no-eligible-word result (empty secret) or a secret of at least
    [min_length + 2] characters: the hyphen join of at least three readings
    that sum to [min_length] or more.  Lengths are Python's [len], counted in
    characters. *)
Theorem passphrase_length_floor fuel d min_length character_count capitalize g
        secret hint g' :
  generate_passphrase fuel d min_length None character_count capitalize g
  = Ret (secret, hint) g' ->
  (valid_words d character_count = []
   /\ secret = [] /\ hint = no_words_hint)
  \/ exists pinyins chinese_chars,
      secret = Str.join (Str.lit "-") pinyins
      /\ hint = Str.join (Str.lit "-")
                  (map (fun cp => token (fst cp) (snd cp))
                       (combine chinese_chars pinyins))
      /\ Forall2 (reads d capitalize) chinese_chars pinyins
      /\ (3 <= List.length pinyins)%nat
      /\ Str.len secret
         = Str.sum_len pinyins + Z.of_nat (List.length pinyins) - 1
      /\ min_length + 2 <= Str.len secret.
Proof.
  intros Hrun.
  destruct (min_length_mode_sound _ _ _ _ _ _ _ _ Hrun)
    as [[Hnone [= -> ->]]|(ps & cs & body & last & Hr & Hsel & Hlen & Hsum & _)].
  - left. auto.
  - right. exists ps, cs. injection Hr as -> ->.
    split; [reflexivity|]. split; [reflexivity|]. split; [exact Hsel|].
    split; [exact Hlen|]. rewrite join_dash_length. lia.
Qed.

Lemma passphrase_length_floor_witness :
  (valid_words umlauts 1 = []
   /\ Str.lit "nü-nü-üe-nü-ßa" = [] /\ Str.lit "女(nü)-女(nü)-绿(üe)-女(nü)-w(ßa)" = no_words_hint)
  \/ exists pinyins chinese_chars,
      Str.lit "nü-nü-üe-nü-ßa" = Str.join (Str.lit "-") pinyins
      /\ Str.lit "女(nü)-女(nü)-绿(üe)-女(nü)-w(ßa)"
         = Str.join (Str.lit "-")
             (map (fun cp => token (fst cp) (snd cp))
                  (combine chinese_chars pinyins))
      /\ Forall2 (reads umlauts false) chinese_chars pinyins
      /\ (3 <= List.length pinyins)%nat
      /\ Str.len (Str.lit "nü-nü-üe-nü-ßa")
         = Str.sum_len pinyins + Z.of_nat (List.length pinyins) - 1
      /\ 9 + 2 <= Str.len (Str.lit "nü-nü-üe-nü-ßa").
Proof.
  eapply (passphrase_length_floor 20 umlauts 9 1 false
            (scripted [0; 0; 1; 0; 2]%nat)).
  vm_compute. reflexivity.
Defined.

(** X11.  The loop of minimum-length mode draws no word it does not need: a
    returned passphrase has exactly three words, or its readings without the
    last one sum to less than [min_length].  Lengths are Python's [len]. *)
Theorem passphrase_no_extra_word fuel d min_length character_count capitalize g
        secret hint g' :
  generate_passphrase fuel d min_length None character_count capitalize g
  = Ret (secret, hint) g' ->
  secret <> [] ->
  exists pinyins chinese_chars body last,
    secret = Str.join (Str.lit "-") pinyins
    /\ hint = Str.join (Str.lit "-")
                (map (fun cp => token (fst cp) (snd cp))
                     (combine chinese_chars pinyins))
    /\ Forall2 (reads d capitalize) chinese_chars pinyins
    /\ pinyins = body ++ [last]
    /\ (List.length pinyins = 3%nat \/ Str.sum_len body < min_length).
Proof.
  intros Hrun Hsecret.
  destruct (min_length_mode_sound _ _ _ _ _ _ _ _ Hrun)
    as [[_ [= -> _]]|(ps & cs & body & last & Hr & Hsel & Hlen & _ & -> & Hmin)];
    [congruence|].
  exists (body ++ [last]), cs, body, last. injection Hr as -> ->.
  split; [reflexivity|]. split; [reflexivity|].
  split; [exact Hsel|]. split; [reflexivity|].
  rewrite length_app in *. cbn [List.length] in *.
  destruct Hmin as [Hshort|Hsum]; [left; lia | now right].
Qed.

Lemma passphrase_no_extra_word_witness :
  exists pinyins chinese_chars body last,
    Str.lit "nü-nü-üe-nü-ßa" = Str.join (Str.lit "-") pinyins
    /\ Str.lit "女(nü)-女(nü)-绿(üe)-女(nü)-w(ßa)"
       = Str.join (Str.lit "-")
           (map (fun cp => token (fst cp) (snd cp))
                (combine chinese_chars pinyins))
    /\ Forall2 (reads umlauts false) chinese_chars pinyins
    /\ pinyins = body ++ [last]
    /\ (List.length pinyins = 3%nat \/ Str.sum_len body < 9).
Proof.
  eapply (passphrase_no_extra_word 20 umlauts 9 1 false
            (scripted [0; 0; 1; 0; 2]%nat)).
  - vm_compute. reflexivity.
  - vm_compute. discriminate.
Defined.

(** X12.  [generate_passphrase] raises nothing but the [ValueError] of
    [random.sample], and only in fixed-count mode when there are eligible
    words but fewer than [max(3, word_count)]; minimum-length mode never
    raises, and no dict lookup fails. *)
Theorem passphrase_only_ValueError fuel d min_length word_count character_count
        capitalize g e :
  generate_passphrase fuel d min_length word_count character_count capitalize g
  = Raise e ->
  e = ValueError
  /\ valid_words d character_count <> []
  /\ exists wc,
      word_count = Some wc
      /\ Z.of_nat (List.length (valid_words d character_count)) < Z.max 3 wc.
Proof.
  destruct word_count as [wc|]; unfold generate_passphrase; intros H.
  - destruct (valid_words d character_count) as [|v vs] eqn:Hvw; [discriminate|].
    destruct (Z.lt_ge_cases (Z.of_nat (List.length (v :: vs))) (Z.max 3 wc))
      as [Hfew|Henough].
    + unfold bind in H. rewrite (sample_too_many _ _ g Hfew) in H.
      injection H as <-. split; [reflexivity|]. split; [discriminate|].
      now exists wc.
    + destruct (sample_run (v :: vs) (Z.max 3 wc) g)
        as (words & Hsample & _ & Hincl & _); [lia|].
      destruct (append_readings_run d capitalize words []
                  (advance (Z.to_nat (Z.max 3 wc)) g)) as (ps & Hps & _).
      { apply Forall_forall. intros w Hw.
        apply (valid_words_keys d character_count).
        rewrite Hvw. exact (Hincl w Hw). }
      unfold bind at 1 in H. rewrite Hsample in H.
      unfold bind in H. rewrite Hps in H. discriminate.
  - unfold bind in H.
    destruct (draw_words fuel d min_length character_count capitalize [] [] g)
      as [[[ps cs]|] g1|e'|] eqn:Hloop; try discriminate.
    exfalso. exact (draw_words_no_Raise _ _ _ _ _ _ _ _ _ Hloop).
Qed.

Lemma passphrase_only_ValueError_witness :
  ValueError = ValueError
  /\ valid_words demo 2 <> []
  /\ exists wc,
      Some 4 = Some wc
      /\ Z.of_nat (List.length (valid_words demo 2)) < Z.max 3 wc.
Proof.
  apply (passphrase_only_ValueError 0 demo 10 (Some 4) 2 false (scripted [])).
  vm_compute. reflexivity.
Defined.

(** ** Reading the hint of a passphrase back *)

Lemma passphrase_hint_length (pairs : list (str * str)) :
  pairs <> [] ->
  (2 <= List.length
          (Str.join (Str.lit "-")
             (map (fun cp => token (fst cp) (snd cp)) pairs)))%nat.
Proof.
  destruct pairs as [|[w p] [|q rest]]; [congruence| |]; intros _.
  - cbn [map Str.join fst snd]. apply token_length.
  - cbn [map]. rewrite join_dash_cons, length_app.
    pose proof (token_length w p). cbn [fst snd]. lia.
Qed.

Lemma replay_passphrase_hint (pairs : list (str * str)) :
  Forall clean_pair pairs ->
  pairs <> [] ->
  replay InWord
    (Str.join (Str.lit "-") (map (fun cp => token (fst cp) (snd cp)) pairs))
  = Str.join (Str.lit "-") (map snd pairs).
Proof.
  induction pairs as [|[w p] rest IH]; intros Hclean Hne; [congruence|].
  inversion Hclean as [|? ? [Hw Hp] Hrest]; subst. cbn [fst snd] in *.
  destruct rest as [|q rest].
  - cbn [map Str.join fst snd].
    rewrite <- (app_nil_r (token w p)), (replay_token _ _ _ Hw Hp).
    cbn [replay]. apply app_nil_r.
  - cbn [map]. rewrite !join_dash_cons. cbn [fst snd].
    rewrite (replay_token _ _ _ Hw Hp). f_equal.
    cbn [replay].
    pose proof (passphrase_hint_length (q :: rest) ltac:(discriminate)) as Hlen.
    cbn [map] in Hlen.
    replace (List.length _ =? 1)%nat with false
      by (symmetry; apply Nat.eqb_neq; lia).
    f_equal. apply IH; [exact Hrest | discriminate].
Qed.

Lemma secret_of_passphrase_hint d capitalize (words pinyins : list str) :
  parenthesis_free d = true ->
  Forall2 (reads d capitalize) words pinyins ->
  (3 <= List.length words)%nat ->
  secret_of_hint (snd (passphrase_result words pinyins))
  = fst (passphrase_result words pinyins).
Proof.
  intros Hfree Hsel Hlen.
  destruct (combine_clean _ _ _ _ Hfree Hsel) as [Hclean Hsnd].
  unfold passphrase_result, secret_of_hint. cbn [fst snd].
  destruct Hsel as [|w p ws ps Hwp Hsel]; [cbn in Hlen; lia|].
  destruct Hsel as [|w2 p2 ws ps Hwp2 Hsel]; [cbn in Hlen; lia|].
  set (pairs := combine (w :: w2 :: ws) (p :: p2 :: ps)) in *.
  assert (Hne : pairs <> []) by discriminate.
  replace (List.length _ =? 2)%nat with false.
  - rewrite (replay_passphrase_hint pairs Hclean Hne). now rewrite Hsnd.
  - symmetry. apply Nat.eqb_neq. subst pairs. cbn [combine map].
    rewrite join_dash_cons, length_app. cbn [fst snd List.length].
    pose proof (token_length w p). lia.
Qed.

(** X13.  When no word of the catalog contains an opening parenthesis and no
    reading a closing one, the hint of every result of [generate_passphrase]
    (either mode, the no-eligible-word result included) determines its secret:
    reading the [word(reading)] tokens of the hint back, with the character
    found between two tokens, gives exactly the returned secret. *)
Theorem passphrase_secret_from_hint fuel d min_length word_count
        character_count capitalize g secret hint g' :
  parenthesis_free d = true ->
  generate_passphrase fuel d min_length word_count character_count capitalize g
  = Ret (secret, hint) g' ->
  secret_of_hint hint = secret.
Proof.
  intros Hfree Hrun. destruct word_count as [wc|].
  - destruct (fixed_count_sound _ _ _ _ _ _ _ _ _ Hrun)
      as [[_ [= -> ->]]|(words & ps & Hr & Hsel & Hlen)];
      [vm_compute; reflexivity|].
    pose proof (secret_of_passphrase_hint d capitalize words ps Hfree Hsel
                  ltac:(lia)) as Hback.
    rewrite <- Hr in Hback. exact Hback.
  - destruct (min_length_mode_sound _ _ _ _ _ _ _ _ Hrun)
      as [[_ [= -> ->]]|(ps & cs & body & last & Hr & Hsel & Hlen & _)];
      [vm_compute; reflexivity|].
    pose proof (secret_of_passphrase_hint d capitalize cs ps Hfree Hsel
                  ltac:(rewrite (Forall2_length Hsel); exact Hlen)) as Hback.
    rewrite <- Hr in Hback. exact Hback.
Qed.

Lemma passphrase_secret_from_hint_witness :
  secret_of_hint (Str.lit "北京(Beijing)-你好(Nihao)-世界(Shijie)")
  = Str.lit "Beijing-Nihao-Shijie".
Proof.
  eapply (passphrase_secret_from_hint 0 example_catalog 10 (Some 3) 2 true
            (scripted [2; 0; 0]%nat)).
  - vm_compute. reflexivity.
  - vm_compute. reflexivity.
Defined.

(** ** The capitalize flag of generate_passphrase *)

Lemma append_readings_capitalized d (words : list str) :
  forall pinyins g pinyins' g',
    append_readings d false words pinyins g = Ret pinyins' g' ->
    append_readings d true words (map capitalize_pinyin pinyins) g
    = Ret (map capitalize_pinyin pinyins') g'.
Proof.
  induction words as [|w words IH]; intros ps g ps' g' H;
    cbn [append_readings] in *.
  - injection H as <- <-. reflexivity.
  - apply bind_Ret in H. destruct H as (e & g1 & He & H).
    unfold bind. rewrite He. apply IH in H. rewrite map_app in H. exact H.
Qed.

Lemma sum_len_capitalized_reads d (words new : list str) :
  capitalize_keeps_length d = true ->
  Forall2 (reads d false) words new ->
  Str.sum_len (map capitalize_pinyin new) = Str.sum_len new.
Proof.
  intros Hkeep Hsel. induction Hsel as [|w p ws ps Hwp _ IH]; [reflexivity|].
  cbn [map Str.sum_len]. rewrite IH.
  destruct Hwp as [_ (e & He & ->)]. cbn [reading].
  now rewrite (capitalize_keeps_length_In d w e Hkeep (lookup_In _ _ _ He)).
Qed.

Lemma draw_words_capitalized (fuel : nat) d min_length character_count :
  capitalize_keeps_length d = true ->
  forall pinyins chinese_chars g r g',
    Str.sum_len (map capitalize_pinyin pinyins) = Str.sum_len pinyins ->
    draw_words fuel d min_length character_count false pinyins chinese_chars g
    = Ret r g' ->
    draw_words fuel d min_length character_count true
      (map capitalize_pinyin pinyins) chinese_chars g
    = Ret (option_map (fun pc => (map capitalize_pinyin (fst pc), snd pc)) r) g'.
Proof.
  intros Hkeep.
  induction fuel as [|fuel IH]; intros ps cs g r g' Hsum Hrun;
    rewrite draw_words_step in Hrun; rewrite draw_words_step;
    rewrite Hsum, length_map;
    destruct ((Z.of_nat (List.length ps) <? 3) || (Str.sum_len ps <? min_length));
    try discriminate; try (injection Hrun as <- <-; reflexivity).
  destruct (valid_words d character_count) as [|v vs] eqn:Hvw;
    [injection Hrun as <- <-; reflexivity|].
  apply bind_Ret in Hrun. destruct Hrun as (words & g1 & Hsample & Hrun).
  apply bind_Ret in Hrun. destruct Hrun as (ps1 & g2 & Hread & Hrun).
  unfold bind at 1. rewrite Hsample.
  unfold bind at 1. rewrite (append_readings_capitalized _ _ _ _ _ _ Hread).
  apply IH; [|exact Hrun].
  apply sample_Ret in Hsample. destruct Hsample as (_ & Hincl & _).
  apply append_readings_Ret in Hread.
  - destruct Hread as (new & -> & Hnew & _).
    rewrite map_app, !sum_len_app, Hsum.
    now rewrite (sum_len_capitalized_reads d words new Hkeep Hnew).
  - apply Forall_forall. intros w Hw.
    apply (valid_words_keys d character_count). rewrite Hvw.
    exact (Hincl w Hw).
Qed.

(** X14.  On a catalog whose readings keep their length when capitalised, the
    [capitalize] flag changes neither the words drawn nor the number of draws
    of [generate_passphrase], in either mode: on the same random source the
    call with [capitalize=True] returns the same no-eligible-word result, or
    the hyphen joins of the same words with every reading capitalised. *)
Theorem passphrase_capitalize fuel d min_length word_count character_count g
        secret hint g' :
  capitalize_keeps_length d = true ->
  generate_passphrase fuel d min_length word_count character_count false g
  = Ret (secret, hint) g' ->
  (secret = [] /\ hint = no_words_hint
   /\ generate_passphrase fuel d min_length word_count character_count true g
      = Ret (secret, hint) g')
  \/ exists chinese_chars pinyins,
      secret = Str.join (Str.lit "-") pinyins
      /\ hint = Str.join (Str.lit "-")
                  (map (fun cp => token (fst cp) (snd cp))
                       (combine chinese_chars pinyins))
      /\ Forall2 (reads d false) chinese_chars pinyins
      /\ generate_passphrase fuel d min_length word_count character_count true g
         = Ret (Str.join (Str.lit "-") (map capitalize_pinyin pinyins),
                Str.join (Str.lit "-")
                  (map (fun cp => token (fst cp) (snd cp))
                       (combine chinese_chars
                          (map capitalize_pinyin pinyins)))) g'.
Proof.
  intros Hkeep Hrun. destruct word_count as [wc|].
  - unfold generate_passphrase in *.
    destruct (valid_words d character_count) as [|v vs] eqn:Hvw.
    + left. unfold ret in *. injection Hrun as Hs Hh Hg.
      subst secret hint g'. repeat split; reflexivity.
    + right.
      apply bind_Ret in Hrun. destruct Hrun as (words & g1 & Hsample & Hrun).
      apply bind_Ret in Hrun. destruct Hrun as (ps & g2 & Hread & Hrun).
      injection Hrun as <- <- <-.
      exists words, ps. split; [reflexivity|]. split; [reflexivity|]. split.
      * apply sample_Ret in Hsample. destruct Hsample as (_ & Hincl & _).
        apply append_readings_Ret in Hread.
        -- destruct Hread as (new & -> & Hnew & _). exact Hnew.
        -- apply Forall_forall. intros w Hw.
           apply (valid_words_keys d character_count). rewrite Hvw.
           exact (Hincl w Hw).
      * pose proof (append_readings_capitalized _ _ _ _ _ _ Hread) as Hcap.
        cbn [map] in Hcap.
        unfold bind at 1. rewrite Hsample. unfold bind. now rewrite Hcap.
  - unfold generate_passphrase in *.
    apply bind_Ret in Hrun. destruct Hrun as (r0 & g1 & Hloop & Hrun).
    pose proof (draw_words_sound _ _ _ _ _ _ _ _ _ _ Hloop (Forall2_nil _)) as Hs.
    apply (draw_words_capitalized _ _ _ _ Hkeep) in Hloop; [|reflexivity].
    cbn [map] in Hloop.
    unfold bind. rewrite Hloop.
    destruct r0 as [[ps cs]|]; cbn [option_map fst snd].
    + right. injection Hrun as <- <- <-. exists cs, ps.
      split; [reflexivity|]. split; [reflexivity|].
      split; [exact (proj1 Hs) | reflexivity].
    + left. unfold ret in *. injection Hrun as Hsec Hhint Hg.
      subst secret hint g'. repeat split; reflexivity.
Qed.

Lemma passphrase_capitalize_witness :
  (Str.lit "beijing-nihao-shijie" = []
   /\ Str.lit "北京(beijing)-你好(nihao)-世界(shijie)" = no_words_hint
   /\ generate_passphrase 0 example_catalog 10 (Some 3) 2 true
        (scripted [2; 0; 0]%nat)
      = Ret (Str.lit "beijing-nihao-shijie",
             Str.lit "北京(beijing)-你好(nihao)-世界(shijie)")
            (advance 3 (scripted [2; 0; 0]%nat)))
  \/ exists chinese_chars pinyins,
      Str.lit "beijing-nihao-shijie" = Str.join (Str.lit "-") pinyins
      /\ Str.lit "北京(beijing)-你好(nihao)-世界(shijie)"
         = Str.join (Str.lit "-")
             (map (fun cp => token (fst cp) (snd cp))
                  (combine chinese_chars pinyins))
      /\ Forall2 (reads example_catalog false) chinese_chars pinyins
      /\ generate_passphrase 0 example_catalog 10 (Some 3) 2 true
           (scripted [2; 0; 0]%nat)
         = Ret (Str.join (Str.lit "-") (map capitalize_pinyin pinyins),
                Str.join (Str.lit "-")
                  (map (fun cp => token (fst cp) (snd cp))
                       (combine chinese_chars
                          (map capitalize_pinyin pinyins))))
               (advance 3 (scripted [2; 0; 0]%nat)).
Proof.
  apply (passphrase_capitalize 0 example_catalog 10 (Some 3) 2
           (scripted [2; 0; 0]%nat)).
  - vm_compute. reflexivity.
  - vm_compute. reflexivity.
Defined.

(** ** The character-count filter of generate_passphrase *)

Lemma valid_words_count d character_count (w : str) :
  In w (valid_words d character_count) ->
  exists e, lookup d w = Some e /\ char_count e = character_count.
Proof.
  unfold valid_words. rewrite filter_In. intros [_ H].
  destruct (lookup d w) as [e|]; [|discriminate].
  exists e. split; [reflexivity|]. now apply Z.eqb_eq.
Qed.

Lemma draw_words_valid (fuel : nat) d min_length character_count capitalize :
  forall pinyins chinese_chars g pinyins' chinese_chars' g',
    draw_words fuel d min_length character_count capitalize
      pinyins chinese_chars g = Ret (Some (pinyins', chinese_chars')) g' ->
    Forall (fun w => In w (valid_words d character_count)) chinese_chars ->
    Forall (fun w => In w (valid_words d character_count)) chinese_chars'.
Proof.
  induction fuel as [|fuel IH]; intros ps cs g ps' cs' g' Hrun Hvalid;
    rewrite draw_words_step in Hrun;
    destruct ((Z.of_nat (List.length ps) <? 3) || (Str.sum_len ps <? min_length));
    try discriminate; try (injection Hrun as <- <- <-; exact Hvalid).
  destruct (valid_words d character_count) as [|v vs] eqn:Hvw; [discriminate|].
  apply bind_Ret in Hrun. destruct Hrun as (words & g1 & Hsample & Hrun).
  apply bind_Ret in Hrun. destruct Hrun as (ps1 & g2 & _ & Hrun).
  apply sample_Ret in Hsample. destruct Hsample as (_ & Hincl & _).
  apply IH in Hrun; [exact Hrun|].
  apply Forall_app. split; [exact Hvalid|]. apply Forall_forall. exact Hincl.
Qed.

(** X15.  Every word of a passphrase that [generate_passphrase] returns, in
    either mode and on any catalog, is a key of the catalog whose entry has
    exactly the requested [character_count]; the only other result is the
    no-eligible-word one. *)
Theorem passphrase_words_have_count fuel d min_length word_count character_count
        capitalize g r g' :
  generate_passphrase fuel d min_length word_count character_count capitalize g
  = Ret r g' ->
  r = ([], no_words_hint)
  \/ exists chinese_chars pinyins,
      r = passphrase_result chinese_chars pinyins
      /\ Forall2 (reads d capitalize) chinese_chars pinyins
      /\ Forall (fun w => exists e, lookup d w = Some e
                                    /\ char_count e = character_count)
                chinese_chars.
Proof.
  intros Hrun. destruct word_count as [wc|]; unfold generate_passphrase in Hrun.
  - destruct (valid_words d character_count) as [|v vs] eqn:Hvw.
    + left. now injection Hrun as <- _.
    + right.
      apply bind_Ret in Hrun. destruct Hrun as (words & g1 & Hsample & Hrun).
      apply bind_Ret in Hrun. destruct Hrun as (ps & g2 & Hread & Hrun).
      injection Hrun as <- _.
      apply sample_Ret in Hsample. destruct Hsample as (_ & Hincl & _).
      rewrite <- Hvw in Hincl.
      apply append_readings_Ret in Hread.
      * destruct Hread as (new & -> & Hnew & _). exists words, new.
        split; [reflexivity|]. split; [exact Hnew|].
        apply Forall_forall. intros w Hw.
        exact (valid_words_count _ _ _ (Hincl w Hw)).
      * apply Forall_forall. intros w Hw.
        exact (valid_words_keys _ _ _ (Hincl w Hw)).
  - apply bind_Ret in Hrun. destruct Hrun as (r0 & g1 & Hloop & Hrun).
    destruct r0 as [[ps cs]|]; [right | left; now injection Hrun as <- _].
    injection Hrun as <- _. exists cs, ps. split; [reflexivity|].
    pose proof (draw_words_sound _ _ _ _ _ _ _ _ _ _ Hloop (Forall2_nil _)) as Hs.
    split; [exact (proj1 Hs)|].
    pose proof (draw_words_valid _ _ _ _ _ _ _ _ _ _ _ Hloop (Forall_nil _)) as Hv.
    apply Forall_forall. intros w Hw.
    rewrite Forall_forall in Hv. exact (valid_words_count _ _ _ (Hv w Hw)).
Qed.

Lemma passphrase_words_have_count_witness :
  passphrase_result
    [Str.lit "北京"; Str.lit "你好"; Str.lit "世界"]
    [Str.lit "beijing"; Str.lit "nihao"; Str.lit "shijie"]
  = ([], no_words_hint)
  \/ exists chinese_chars pinyins,
      passphrase_result
        [Str.lit "北京"; Str.lit "你好"; Str.lit "世界"]
        [Str.lit "beijing"; Str.lit "nihao"; Str.lit "shijie"]
      = passphrase_result chinese_chars pinyins
      /\ Forall2 (reads example_catalog false) chinese_chars pinyins
      /\ Forall (fun w => exists e, lookup example_catalog w = Some e
                                    /\ char_count e = 2)
                chinese_chars.
Proof.
  eapply (passphrase_words_have_count 0 example_catalog 10 (Some 3) 2 false
            (scripted [2; 0; 0]%nat)).
  vm_compute. reflexivity.
Defined.
